(** * Papyrus plugin for Notepad++: lexer core and multi-tabbed dialog

  A shallow embedding of [src/Plugin/UI/MultiTabbedDialog.cpp] and of the
  lexer declared in [src/Plugin/Lexer/Lexer.hpp], with the properties the
  specification states about them.

  Conventions.
  - [std::list] is a Rocq list; an iterator is the index of the node it
    designates and [end()] is the length of the list.
  - [std::map] is a [gmap], [std::set] a [gset].
  - Calls into the window manager and into the virtual hooks of subclasses
    are recorded, in order, in an event log.
  - C++ exceptions and undefined behaviour are outcomes of a small state
    and error monad; whatever was mutated before a [throw] stays mutated. *)

From Stdlib Require Import Ascii.
From stdpp Require Import gmap strings list sorting.

(** ** The multi-tabbed dialog (MultiTabbedDialog.cpp) *)

Module MultiTabbedDialog.

Local Open Scope Z_scope.

Abbreviation tab_id_t := Z (only parsing).
Abbreviation HWND := Z (only parsing).

Definition nullptr : HWND := 0.

(** [struct Tab]: the tab id; the [multiTabbedDialog] member always holds
    [this] and carries no information of its own. *)
Record Tab := { tab : tab_id_t }.

(** [struct TabItem], as [addTabAt] and [createTabDialog] use it. *)
Record TabItem := { dialogID : Z; handle : HWND }.

(** The value [std::map::operator[]] inserts for a missing key. *)
Definition defaultTabItem : TabItem := {| dialogID := 0; handle := nullptr |}.

Inductive Message := TCM_DELETEITEM | TCM_SETCURSEL | TCM_INSERTITEM.

Inductive Event :=
| SendDlgItemMessage (msg : Message) (wParam : Z) (text : option string)
| DestroyWindow (h : HWND)
| CreateDialogParam (dlg : Z) (owner : tab_id_t)
| SetWindowPos (h : HWND)
| ShowWindow (h : HWND) (show : bool)
| onTabDialogCreated (t : tab_id_t)
| onTabDialogDestroyed (t : tab_id_t).

Record Dialog := {
  tabs : list Tab;
  hiddenTabs : list Tab;
  tabItems : gmap Z TabItem;
  currentTab : tab_id_t;
  (** the handles [CreateDialogParam] is going to return, first call first;
      when none is left the call fails and returns [nullptr] *)
  handles : list HWND;
  (** calls made so far, oldest first *)
  events : list Event
}.

Inductive Exception := invalid_argument (what : string).

Inductive Outcome (A : Type) :=
| Returned (a : A)
| Thrown (e : Exception)
| Undefined.
Arguments Returned {A} a.
Arguments Thrown {A} e.
Arguments Undefined {A}.

Definition M (A : Type) : Type := Dialog -> Dialog * Outcome A.

#[export] Instance M_ret : MRet M := fun A a d => (d, Returned a).
#[export] Instance M_bind : MBind M := fun A B f m d =>
  match m d with
  | (d', Returned a) => f a d'
  | (d', Thrown e) => (d', Thrown e)
  | (d', Undefined) => (d', Undefined)
  end.

Definition gets {A} (f : Dialog -> A) : M A := fun d => (d, Returned (f d)).
Definition modify (f : Dialog -> Dialog) : M unit := fun d => (f d, Returned tt).
Definition throw {A} (e : Exception) : M A := fun d => (d, Thrown e).
Definition undefined {A} : M A := fun d => (d, Undefined).

Definition set_tabs (l : list Tab) (d : Dialog) : Dialog :=
  {| tabs := l; hiddenTabs := hiddenTabs d; tabItems := tabItems d;
     currentTab := currentTab d; handles := handles d; events := events d |}.
Definition set_hiddenTabs (l : list Tab) (d : Dialog) : Dialog :=
  {| tabs := tabs d; hiddenTabs := l; tabItems := tabItems d;
     currentTab := currentTab d; handles := handles d; events := events d |}.
Definition set_tabItems (m : gmap Z TabItem) (d : Dialog) : Dialog :=
  {| tabs := tabs d; hiddenTabs := hiddenTabs d; tabItems := m;
     currentTab := currentTab d; handles := handles d; events := events d |}.
Definition set_currentTab (t : tab_id_t) (d : Dialog) : Dialog :=
  {| tabs := tabs d; hiddenTabs := hiddenTabs d; tabItems := tabItems d;
     currentTab := t; handles := handles d; events := events d |}.
Definition set_handles (l : list HWND) (d : Dialog) : Dialog :=
  {| tabs := tabs d; hiddenTabs := hiddenTabs d; tabItems := tabItems d;
     currentTab := currentTab d; handles := l; events := events d |}.
Definition set_events (l : list Event) (d : Dialog) : Dialog :=
  {| tabs := tabs d; hiddenTabs := hiddenTabs d; tabItems := tabItems d;
     currentTab := currentTab d; handles := handles d; events := l |}.

Definition emit (e : Event) : M unit :=
  modify (fun d => set_events (events d ++ [e]) d).

(** [std::find_if] over a tab list with the predicate
    [tabInfo.tab == tab], as [addTabAt] spells it out for [hiddenTabs]. *)
Fixpoint find_tab (t : tab_id_t) (l : list Tab) : nat :=
  match l with
  | [] => 0%nat
  | x :: l' => if decide (tab x = t) then 0%nat else S (find_tab t l')
  end.

(** Modelled from the spec: [findTab] is declared in MultiTabbedDialog.hpp,
    which is not among the sources, and the specification does not describe
    it.  [addTabAt] stores its result and the result of the [std::find_if]
    search of [hiddenTabs] in the same iterator variable; the model is that
    search, applied to [tabs]. *)
Definition findTab (t : tab_id_t) : M nat := gets (fun d => find_tab t (tabs d)).

(** Modelled from the spec: [getTabIndex(iterator)] comes from the same
    absent header.  Its result is the item index of the tabs control and
    [handleNotifyMessage] inverts it with [std::next(tabs.begin(), index)],
    so it is the distance of the iterator from [tabs.begin()]. *)
Definition getTabIndex (iter : nat) : Z := Z.of_nat iter.

(** [tabItems[tab]]: the entry, inserted with the default value first when
    the key is missing. *)
Definition tabItems_at (t : tab_id_t) : M TabItem := fun d =>
  match tabItems d !! t with
  | Some item => (d, Returned item)
  | None => (set_tabItems (<[t := defaultTabItem]> (tabItems d)) d, Returned defaultTabItem)
  end.

(** [l.erase(iter)] *)
Definition erase (iter : nat) (l : list Tab) : list Tab := delete iter l.

(** [l.insert(pos, x)]: [x] goes in front of the node [pos] designates. *)
Definition insert_at (pos : nat) (x : Tab) (l : list Tab) : list Tab :=
  take pos l ++ x :: drop pos l.

(** [dst.splice(pos, src, iter)] for two different lists and an iterator
    of [src]: the node moves. *)
Definition splice_from (pos : nat) (src : list Tab) (iter : nat) (dst : list Tab)
  : list Tab * list Tab :=
  match src !! iter with
  | Some x => (insert_at pos x dst, erase iter src)
  | None => (dst, src)
  end.

Definition removeTab (t : tab_id_t) (destroy : bool) : M bool :=
  iter ← findTab t;
  tabsEnd ← gets (fun d => length (tabs d));
  if decide (iter ≠ tabsEnd) then
    emit (SendDlgItemMessage TCM_DELETEITEM (getTabIndex iter) None);;
    iterItem ← gets (fun d => tabItems d !! t);
    (if destroy then
       modify (fun d => set_tabs (erase iter (tabs d)) d);;
       match iterItem with
       | Some item =>
           emit (DestroyWindow (handle item));;
           modify (fun d => set_tabItems (delete t (tabItems d)) d);;
           emit (onTabDialogDestroyed t)
       | None => undefined     (* [iterItem == tabItems.end()] is dereferenced *)
       end
     else
       modify (fun d =>
         let '(hidden', tabs') :=
           splice_from (length (hiddenTabs d)) (tabs d) iter (hiddenTabs d) in
         set_hiddenTabs hidden' (set_tabs tabs' d)));;
    mret true
  else mret false.

(** The members that [showTab] calls and MultiTabbedDialog.hpp defines.
    The header is not among the sources and nothing else tells what they
    do, so they are parameters of [showTab]: any computation on the dialog,
    which may return, throw or be undefined.  [getTabIndexOf] is the
    overload [getTabIndex(tab_id_t)]. *)
Record Header := {
  isTabDialogCreated : tab_id_t -> M bool;
  setTabVisibility : tab_id_t -> bool -> M unit;
  getTabIndexOf : tab_id_t -> M Z
}.

(** [::CreateDialogParam]: the window manager hands out its next handle. *)
Definition createDialogParam (dlg : Z) (owner : tab_id_t) : M HWND :=
  emit (CreateDialogParam dlg owner);;
  hs ← gets handles;
  match hs with
  | h :: rest => modify (set_handles rest);; mret h
  | [] => mret nullptr
  end.

Definition createTabDialog (t : tab_id_t) : M unit :=
  iter ← findTab t;
  tabsEnd ← gets (fun d => length (tabs d));
  if decide (iter ≠ tabsEnd) then
    item ← tabItems_at t;
    h ← createDialogParam (dialogID item) t;
    modify (fun d => set_tabItems (<[t := {| dialogID := dialogID item; handle := h |}]> (tabItems d)) d);;
    emit (SetWindowPos h);;
    emit (onTabDialogCreated t)
  else mret tt.

(** [showTab].  After the assignment every call takes the member
    [currentTab] as its argument, so it is read again each time. *)
Definition showTab (hpp : Header) (t : tab_id_t) : M unit :=
  cur ← gets currentTab;
  if decide (cur ≠ t) then
    (if decide (0 <= cur) then setTabVisibility hpp cur false else mret tt);;
    modify (set_currentTab t);;
    cur ← gets currentTab;
    created ← isTabDialogCreated hpp cur;
    (if negb created then cur ← gets currentTab; createTabDialog cur else mret tt);;
    cur ← gets currentTab;
    setTabVisibility hpp cur true;;
    cur ← gets currentTab;
    index ← getTabIndexOf hpp cur;
    emit (SendDlgItemMessage TCM_SETCURSEL index None)
  else mret tt.

Definition duplicate_tab_error : Exception :=
  invalid_argument "Cannot use the same tab ID for different dialogs".

(** [addTabAt].  [auto list = tabs] makes [list] a copy of the container,
    and [list = hiddenTabs] assigns it a copy of the other one, while [iter]
    designates a node of the member it was found in.  So
    [tabs.splice(pos, list, iter)] is handed an iterator that is not an
    iterator of [list]: the call breaks the precondition of [splice] and
    its behaviour is undefined.  [pos] is an iterator of [tabs]. *)
Definition addTabAt (t : tab_id_t) (dlg : Z) (text : string) (pos : nat)
    (lazyInitialization : bool) : M unit :=
  let tabIndex := getTabIndex pos in
  (* Check if tab already exists *)
  iter ← findTab t;
  tabsEnd ← gets (fun d => length (tabs d));
  foundExistingTab ←
    (if decide (iter ≠ tabsEnd) then mret true
     else
       (* Check hidden tabs as well *)
       iter ← gets (fun d => find_tab t (hiddenTabs d));
       hiddenEnd ← gets (fun d => length (hiddenTabs d));
       if decide (iter ≠ hiddenEnd) then mret true
       else mret false);
  (if foundExistingTab : bool then
     item ← tabItems_at t;
     (if decide (dialogID item ≠ dlg) then throw duplicate_tab_error else mret tt);;
     undefined          (* [tabs.splice(pos, list, iter)] *)
   else
     modify (fun d => set_tabs (insert_at pos {| tab := t |} (tabs d)) d);;
     modify (fun d => set_tabItems (<[t := {| dialogID := dlg; handle := nullptr |}]> (tabItems d)) d);;
     if negb lazyInitialization then createTabDialog t else mret tt);;
  (* Add tab to tabs control *)
  emit (SendDlgItemMessage TCM_INSERTITEM tabIndex (Some text)).

(** The ids of the tabs in a list. *)
Definition ids (l : list Tab) : list Z := map tab l.

(** What the class maintains between calls: no id twice among the visible
    and hidden tabs, and an item for each of them. *)
Record consistent (d : Dialog) : Prop := {
  ids_nodup : NoDup (ids (tabs d) ++ ids (hiddenTabs d));
  ids_have_items : forall t, t ∈ ids (tabs d) ++ ids (hiddenTabs d) -> is_Some (tabItems d !! t)
}.

(** [d'] has the tabs of [d], in the lists of [d], and an item for every id
    that had one. *)
Definition grows (d d' : Dialog) : Prop :=
  tabs d' = tabs d ∧ hiddenTabs d' = hiddenTabs d ∧
  ∀ t, is_Some (tabItems d !! t) → is_Some (tabItems d' !! t).

(** A computation that returns and under which the dialog only grows. *)
Definition steady {A} (m : M A) : Prop :=
  ∀ d, ∃ a d', m d = (d', Returned a) ∧ grows d d'.

End MultiTabbedDialog.

(** ** The lexer (Lexer.hpp)

  Lexer.hpp declares the data of the lexer and the signatures of its
  methods; their bodies are in Lexer.cpp, which is not among the sources.
  The types below are the header's.  Every function is modelled from the
  specification and says so. *)

Module State.

(** [enum class State], in declaration order. *)
Inductive t :=
| Default
| Operator
| FlowControl
| Type_
| Keyword
| Keyword2
| FoldOpen
| FoldMiddle
| FoldClose
| Comment
| CommentMultiLine
| CommentDoc
| Number
| String
| Property
| Class
| Function.

#[global] Instance eq_dec : EqDecision t.
Proof. solve_decision. Defined.

(** The value of an enumerator: no initialiser is given, so the first is
    zero and each next one is one more. *)
Definition ordinal (s : t) : Z :=
  match s with
  | Default => 0 | Operator => 1 | FlowControl => 2 | Type_ => 3
  | Keyword => 4 | Keyword2 => 5 | FoldOpen => 6 | FoldMiddle => 7
  | FoldClose => 8 | Comment => 9 | CommentMultiLine => 10
  | CommentDoc => 11 | Number => 12 | String => 13 | Property => 14
  | Class => 15 | Function => 16
  end%Z.

(** [static_cast<State>(style)] for the styles the lexer defines. *)
Definition of_ordinal (z : Z) : option t :=
  match z with
  | 0 => Some Default | 1 => Some Operator | 2 => Some FlowControl
  | 3 => Some Type_ | 4 => Some Keyword | 5 => Some Keyword2
  | 6 => Some FoldOpen | 7 => Some FoldMiddle | 8 => Some FoldClose
  | 9 => Some Comment | 10 => Some CommentMultiLine | 11 => Some CommentDoc
  | 12 => Some Number | 13 => Some String | 14 => Some Property
  | 15 => Some Class | 16 => Some Function
  | _ => None
  end%Z.

(** The style names of the specification's taxonomy, in its order. *)
Definition taxonomy : list t :=
  [Default; Operator; FlowControl; Type_; Keyword; Keyword2; FoldOpen;
   FoldMiddle; FoldClose; Comment; CommentMultiLine; CommentDoc; Number;
   String; Property; Class; Function].

End State.

Module Lexer.

(** [struct Property]: a property the script defines and the line that
    defines it. *)
Record Property := { name : string; line : nat }.

#[export] Instance Property_eq_dec : EqDecision Property.
Proof. solve_decision. Defined.

Inductive TokenType := Identifier | Numeric | Special.

#[export] Instance TokenType_eq_dec : EqDecision TokenType.
Proof. solve_decision. Defined.

Record Token := { content : string; tokenType : TokenType; startPos : nat }.

#[export] Instance Token_eq_dec : EqDecision Token.
Proof. solve_decision. Defined.

(** A [WordList]: the lowercased words of one configured category. *)
Abbreviation WordList := (list string) (only parsing).

(** The private members of [class Lexer], and what [isUsable] observes. *)
Record Lexer := {
  wordListOperators : WordList;     (* instre1 *)
  wordListFlowControl : WordList;   (* instre2 *)
  wordListTypes : WordList;         (* type1 *)
  wordListKeywords : WordList;      (* type2 *)
  wordListKeywords2 : WordList;     (* type3 *)
  wordListFoldOpen : WordList;      (* type4 *)
  wordListFoldMiddle : WordList;    (* type5 *)
  wordListFoldClose : WordList;     (* type6 *)
  propertyLines : list Property;
  propertyNames : gset string;
  (** whether the configuration file exists in the plugin config folder *)
  configFileExists : bool
}.

Definition set_properties (ps : list Property) (ns : gset string) (lx : Lexer) : Lexer :=
  {| wordListOperators := wordListOperators lx;
     wordListFlowControl := wordListFlowControl lx;
     wordListTypes := wordListTypes lx;
     wordListKeywords := wordListKeywords lx;
     wordListKeywords2 := wordListKeywords2 lx;
     wordListFoldOpen := wordListFoldOpen lx;
     wordListFoldMiddle := wordListFoldMiddle lx;
     wordListFoldClose := wordListFoldClose lx;
     propertyLines := ps;
     propertyNames := ns;
     configFileExists := configFileExists lx |}.

(** Modelled from the spec: section 3, FoldLevel, "per-line integer nesting
    depth plus flags"; the flags are the header flag and the mark a
    fold-middle marker leaves on its line (section 4.3). *)
Record FoldLevel := { depth : Z; header : bool; transition : bool }.

(** Modelled from the spec: the document behind the accessor (section 6,
    document accessor) is the host's.  It holds the text, line by line and
    each line with its end-of-line units, the style of each position and the
    fold level of each line.  A position or line without an entry has not
    been styled or folded. *)
Record Document := {
  text : list (list ascii);
  styles : gmap nat State.t;
  levels : gmap nat FoldLevel
}.

Definition set_styles (m : gmap nat State.t) (doc : Document) : Document :=
  {| text := text doc; styles := m; levels := levels doc |}.
Definition set_levels (m : gmap nat FoldLevel) (doc : Document) : Document :=
  {| text := text doc; styles := styles doc; levels := m |}.

(** *** The document accessor

    Modelled from the spec: section 6 lists what the accessor offers,
    character reads by position, line-start and line-end lookup, and the
    sinks for styles and fold levels.  Positions count storage units from
    the start of the document, lines count from zero. *)

Definition lineText (doc : Document) (k : nat) : list ascii :=
  default [] (text doc !! k).

Definition lineLength (doc : Document) (k : nat) : nat := length (lineText doc k).

Definition lengthOf (ls : list (list ascii)) : nat := sum_list (length <$> ls).

Definition docLength (doc : Document) : nat := lengthOf (text doc).

(** The position of the first unit of line [k]. *)
Definition lineStart (doc : Document) (k : nat) : nat := lengthOf (take k (text doc)).

Definition lineEnd (doc : Document) (k : nat) : nat := lineStart doc k + lineLength doc k.

(** The line that holds position [pos]; a position past the end is on the
    last line. *)
Fixpoint lineFromPosition (ls : list (list ascii)) (pos : nat) : nat :=
  match ls with
  | [] => 0
  | l :: rest =>
      if decide (pos < length l) then 0
      else match rest with
           | [] => 0
           | _ => S (lineFromPosition rest (pos - length l))
           end
  end.

Definition getLine (doc : Document) (pos : nat) : nat := lineFromPosition (text doc) pos.

(** Modelled from the spec: sink (c) of section 6, "set style of N
    characters starting at position P", here with one style per position. *)
Fixpoint setStyles (pos : nat) (l : list State.t) (m : gmap nat State.t) : gmap nat State.t :=
  match l with
  | [] => m
  | s :: l' => setStyles (S pos) l' (<[pos := s]> m)
  end.

(** Modelled from the spec: sink (d) of section 6, "set fold level of line
    L". *)
Definition setLevel (k : nat) (fl : FoldLevel) (doc : Document) : Document :=
  set_levels (<[k := fl]> (levels doc)) doc.

(** Modelled from the spec: the depth the document records for a line
    (section 4.5); a line never folded is at depth zero. *)
Definition levelAt (doc : Document) (k : nat) : Z :=
  match levels doc !! k with
  | Some fl => depth fl
  | None => 0%Z
  end.

(** *** Characters

    Modelled from the spec: section 4.1 speaks of letters, digits,
    whitespace and wide characters; the classes are those of ASCII, and a
    unit from 128 on belongs to a wide character. *)

Definition isDigit (c : ascii) : bool :=
  let n := nat_of_ascii c in bool_decide (48 ≤ n ≤ 57).

Definition isLetter (c : ascii) : bool :=
  let n := nat_of_ascii c in bool_decide (65 ≤ n ≤ 90 ∨ 97 ≤ n ≤ 122).

Definition isSpace (c : ascii) : bool :=
  let n := nat_of_ascii c in bool_decide (9 ≤ n ≤ 13 ∨ n = 32).

(** A storage unit that starts (or belongs to) a character outside ASCII. *)
Definition isWide (c : ascii) : bool := bool_decide (128 ≤ nat_of_ascii c).

Definition toLower (c : ascii) : ascii :=
  let n := nat_of_ascii c in
  if bool_decide (65 ≤ n ≤ 90) then ascii_of_nat (n + 32) else c.

Fixpoint lowercase (s : string) : string :=
  match s with
  | EmptyString => EmptyString
  | String c s' => String (toLower c) (lowercase s')
  end.

(** Modelled from the spec: [WordList::InList] is Scintilla's; section 3
    makes the membership test case-insensitive over lowercased words. *)
Definition InList (wl : WordList) (w : string) : bool :=
  bool_decide (lowercase w ∈ wl).

(** *** The language

    The specification leaves the lexical details of the scripting language
    to configuration: which characters continue an identifier, how many
    storage units a wide character takes, the multi-character operators, the
    comment and string delimiters, and the shape of a property declaration.
    The model takes them as a parameter. *)

(** Modelled from the spec: the regions that stay open across lines are the
    multi-line comment, the documentation comment and the string (sections 3
    and 4.2); each has its style in [State]. *)
Inductive RegionKind := MultiLineComment | DocComment | StringLiteral.

Definition regionStyle (k : RegionKind) : State.t :=
  match k with
  | MultiLineComment => State.CommentMultiLine
  | DocComment => State.CommentDoc
  | StringLiteral => State.String
  end.

(** Modelled from the spec: a multi-line region of section 4.2, rules 1 and
    2, with what opens it and what terminates it. *)
Record Region := { kind : RegionKind; opening : string; closing : string }.

(** Modelled from the spec: the lexical parameters of the language, which
    sections 4.1, 4.2 and 9 leave to the language and its configuration. *)
Record Language := {
  identifierExtra : ascii -> bool;
  unitLength : ascii -> nat;
  operators : list string;
  lineComment : string;
  regions : list Region;
  propertyDeclaration : list Token -> option string
}.

(** *** Tokenizer (section 4.1) *)

Fixpoint startsWith (p : list ascii) (cs : list ascii) : bool :=
  match p, cs with
  | [], _ => true
  | a :: p', c :: cs' => bool_decide (a = c) && startsWith p' cs'
  | _ :: _, [] => false
  end.

(** Modelled from the spec: [getNextChar] has no body in the sources.  It
    reads the logical character at the head of [cs] and yields the number of
    storage units it takes (section 4.1, wide characters): a lead unit whose
    sequence does not fit in the line stands for itself, as one unit. *)
Definition getNextChar (L : Language) (cs : list ascii) : nat :=
  match cs with
  | [] => 0
  | c :: rest =>
      let n := unitLength L c in
      if bool_decide (1 < n ∧ n - 1 ≤ length rest) then n else 1
  end.

(** Modelled from the spec: section 4.1, failure case.  A wide lead unit
    whose sequence is cut off by the end of the line is "a single-unit
    token". *)
Definition isPartialUnit (L : Language) (cs : list ascii) : bool :=
  match cs with
  | [] => false
  | c :: rest => isWide c && bool_decide (length rest < unitLength L c - 1)
  end.

(** Modelled from the spec: section 4.1, an identifier does not start with
    a digit; letters, the continuation characters of the language and wide
    characters start one. *)
Definition isIdentifierStart (L : Language) (cs : list ascii) : bool :=
  match cs with
  | [] => false
  | c :: _ => (isLetter c || identifierExtra L c || isWide c) && negb (isPartialUnit L cs)
  end.

Definition isIdentifierChar (L : Language) (cs : list ascii) : bool :=
  match cs with
  | [] => false
  | c :: _ => isIdentifierStart L cs || isDigit c
  end.

(** Modelled from the spec: section 4.1, identifier tokens are "maximal
    runs of letters, digits, and the language's identifier-continuation
    characters"; the result is the number of storage units of the run at the
    head of [cs]. *)
Fixpoint identifierLength (L : Language) (fuel : nat) (cs : list ascii) : nat :=
  match fuel with
  | 0 => 0
  | S fuel' =>
      if isIdentifierChar L cs then
        let n := getNextChar L cs in
        n + identifierLength L fuel' (drop n cs)
      else 0
  end.

(** Modelled from the spec: section 4.1, numeric tokens are "maximal runs
    recognized as number literals (decimal and hexadecimal forms at
    minimum)", with no check beyond the lexical shape: a digit, then letters,
    digits and dots. *)
Definition isNumberChar (c : ascii) : bool :=
  isDigit c || isLetter c || bool_decide (c = "."%char).

Fixpoint numberLength (cs : list ascii) : nat :=
  match cs with
  | c :: cs' => if isNumberChar c then S (numberLength cs') else 0
  | [] => 0
  end.

(** Modelled from the spec: every symbol of more than one character the
    tokenizer can meet: the operators, the comment marker and the region
    delimiters (sections 4.1 and 4.2). *)
Definition symbols (L : Language) : list string :=
  operators L ++ lineComment L :: flat_map (fun r => [opening r; closing r]) (regions L).

(** Modelled from the spec: section 4.1, special tokens are "single
    operator/punctuation characters, or multi-character operators matched
    greedily (longest-match-first)"; the result is the length of the longest
    symbol at the head of [cs], one if there is none. *)
Definition symbolLength (L : Language) (cs : list ascii) : nat :=
  foldr (fun s best =>
           let p := String.list_ascii_of_string s in
           if startsWith p cs then Nat.max (length p) best else best)
        1 (symbols L).

Definition mkToken (ty : TokenType) (pos n : nat) (cs : list ascii) : Token :=
  {| content := String.string_of_list_ascii (take n cs); tokenType := ty; startPos := pos |}.

(** Modelled from the spec: the scan of section 4.1 over the units [cs]
    that start at position [pos]. *)
Fixpoint scan (L : Language) (fuel pos : nat) (cs : list ascii) : list Token :=
  match fuel with
  | 0 => []
  | S fuel' =>
      match cs with
      | [] => []
      | c :: rest =>
          if isSpace c then scan L fuel' (S pos) rest
          else
            let '(ty, n) :=
              if isDigit c then (Numeric, numberLength cs)
              else if isIdentifierStart L cs then (Identifier, identifierLength L (length cs) cs)
              else (Special, symbolLength L cs) in
            mkToken ty pos n cs :: scan L fuel' (pos + n) (drop n cs)
      end
  end.

(** Modelled from the spec: [tokenize] has no body in the sources.  Section
    4.1: the ordered tokens of one line; identifiers, number literals and
    symbols; whitespace separates tokens and is never one; positions count
    storage units from the start of the document. *)
Definition tokenize (L : Language) (doc : Document) (k : nat) : list Token :=
  scan L (lineLength doc k) (lineStart doc k) (lineText doc k).

Definition tokenLength (t : Token) : nat := String.length (content t).







(** *** StyleClassifier (section 4.2) *)

(** Modelled from the spec: section 4.2, rule 1, "[currentState] indicates
    an open multi-line comment/string". *)
Definition isOpenState (L : Language) (cur : State.t) : bool :=
  bool_decide (Exists (fun r => regionStyle (kind r) = cur) (regions L)).

(** Modelled from the spec: section 4.2, rule 1, the token is "the
    terminating sequence" of the region that is open in [cur]. *)
Definition terminates (L : Language) (cur : State.t) (t : Token) : bool :=
  bool_decide (tokenType t = Special) &&
  bool_decide (Exists (fun r => regionStyle (kind r) = cur ∧ closing r = content t) (regions L)).

(** Modelled from the spec: section 4.2, rule 2, the region a special
    token opens, if it opens one. *)
Definition opens (L : Language) (t : Token) : option Region :=
  if bool_decide (tokenType t = Special)
  then List.find (fun r => bool_decide (opening r = content t)) (regions L)
  else None.

(** Modelled from the spec: section 4.2, rule 4.  The word lists in their
    fixed precedence, operators, flow control, types, keywords, keywords2,
    then the names of the declared properties, then the default style. *)
Definition classifyIdentifier (lx : Lexer) (w : string) : State.t :=
  if InList (wordListOperators lx) w then State.Operator
  else if InList (wordListFlowControl lx) w then State.FlowControl
  else if InList (wordListTypes lx) w then State.Type_
  else if InList (wordListKeywords lx) w then State.Keyword
  else if InList (wordListKeywords2 lx) w then State.Keyword2
  else if bool_decide (w ∈ propertyNames lx) then State.Property
  else State.Default.

(** Modelled from the spec: the classifier is part of Lexer.cpp.  Section
    4.2, [classify(token, currentState, wordLists, propertyNames) ->
    (styleTag, newState)], first match wins:
    1. in an open region everything takes the style of the region, and the
       terminating token closes it;
    2. a symbol that opens a region enters it;
    3. the comment marker makes the rest of the line a comment;
    4. identifiers go through the word lists;
    5. numbers are numbers;
    6. any other symbol is an operator. *)
Definition classify (L : Language) (lx : Lexer) (t : Token) (cur : State.t)
  : State.t * State.t :=
  if isOpenState L cur then
    (cur, if terminates L cur t then State.Default else cur)
  else if bool_decide (cur = State.Comment) then
    (State.Comment, State.Comment)
  else
    match opens L t with
    | Some r => (regionStyle (kind r), regionStyle (kind r))
    | None =>
        match tokenType t with
        | Special =>
            if bool_decide (content t = lineComment L)
            then (State.Comment, State.Comment)
            else (State.Operator, State.Default)
        | Identifier => (classifyIdentifier lx (content t), State.Default)
        | Numeric => (State.Number, State.Default)
        end
    end.

(** Modelled from the spec: the result of [classify] for a token, the
    [(styleTag, newState)] of section 4.2. *)
Record Verdict := { token : Token; styleTag : State.t; newState : State.t }.

#[export] Instance Verdict_eq_dec : EqDecision Verdict.
Proof. solve_decision. Defined.

(** Modelled from the spec: section 2, the classifier "consumes tokens in
    order"; the verdicts for the tokens of a line, the state threaded from
    each token to the next. *)
Fixpoint classifyTokens (L : Language) (lx : Lexer) (cur : State.t) (toks : list Token)
  : list Verdict :=
  match toks with
  | [] => []
  | t :: ts =>
      let '(sty, next) := classify L lx t cur in
      {| token := t; styleTag := sty; newState := next |} :: classifyTokens L lx next ts
  end.

(** *** Styling a line *)

(** Modelled from the spec: [StyleContext] is Scintilla's (Lexer.hpp
    includes StyleContext.h).  The model keeps what "emitting one style tag
    per character span" (section 2) needs: a cursor that gives every unit it
    passes the current state as its style and that never passes the end of
    its range. *)
Record StyleContext := {
  currentPos : nat;
  endPos : nat;
  state : State.t;
  styled : list State.t
}.

Definition SetState (s : State.t) (sc : StyleContext) : StyleContext :=
  {| currentPos := currentPos sc; endPos := endPos sc; state := s; styled := styled sc |}.

Definition Forward (n : nat) (sc : StyleContext) : StyleContext :=
  let k := Nat.min n (endPos sc - currentPos sc) in
  {| currentPos := currentPos sc + k; endPos := endPos sc; state := state sc;
     styled := styled sc ++ replicate k (state sc) |}.

Definition Complete (sc : StyleContext) : StyleContext :=
  Forward (endPos sc - currentPos sc) sc.

(** Modelled from the spec: [colorToken] has no body in the sources; its
    comment reads "Colorize a word/symbol in StyleContext to a provided state
    based on the given token".  The units up to the token keep the state the
    context is in, the units of the token get [s]. *)
Definition colorToken (sc : StyleContext) (t : Token) (s : State.t) : StyleContext :=
  let sc1 := Forward (startPos t - currentPos sc) sc in
  Forward (tokenLength t) (SetState s sc1).

Definition colorVerdict (sc : StyleContext) (d : Verdict) : StyleContext :=
  SetState (newState d) (colorToken sc (token d) (styleTag d)).

(** Modelled from the spec: section 3, StyleState.  The state a line starts
    in is the carried-in style when it names an open region, the default
    state otherwise (section 4.2, rule 3: a single-line comment does "not
    persist state past the line"). *)
Definition carry (L : Language) (s : State.t) : State.t :=
  if isOpenState L s then s else State.Default.

(** *** PropertyCache (section 4.4) *)

(** Modelled from the spec: section 4.4, "any previously cached property
    declared on exactly that line is removed first".  The property leaves
    [propertyLines]; its name leaves [propertyNames] unless a property of
    another line has the same name, the set being "kept in sync with the
    Property list" (section 3). *)
Definition forgetLine (k : nat) (lx : Lexer) : Lexer :=
  let gone := filter (fun p => line p = k) (propertyLines lx) in
  let kept := filter (fun p => line p ≠ k) (propertyLines lx) in
  set_properties kept
    (propertyNames lx ∖ (list_to_set (name <$> gone) ∖ list_to_set (name <$> kept))) lx.

(** Modelled from the spec: section 4.2, the classifier "records
    {name, line} into PropertyCache and unions the name into
    PropertyNameSet". *)
Definition remember (n : string) (k : nat) (lx : Lexer) : Lexer :=
  set_properties (propertyLines lx ++ [{| name := n; line := k |}])
                 (propertyNames lx ∪ {[ n ]}) lx.

(** Modelled from the spec: section 4.4, the cache once line [k] has been
    lexed again: what was cached for the line is removed first, then the
    declaration the line holds is added. *)
Definition refreshLine (L : Language) (k : nat) (doc : Document) (lx : Lexer) : Lexer :=
  let lx1 := forgetLine k lx in
  match propertyDeclaration L (tokenize L doc k) with
  | Some n => remember n k lx1
  | None => lx1
  end.

(** *** Lexer: Lex (section 4.5) *)

(** Modelled from the spec: [isUsable] has no body in the sources; its
    comment reads "Only when configuration file exists under Notepad++'s
    plugin config folder can this lexer be used". *)
Definition isUsable (lx : Lexer) : bool := configFileExists lx.

(** Modelled from the spec: the verdicts the classifier reaches on line [k]
    for a lexer in state [lx] and the carried-in style [init]; the
    declaration of the line is recorded "before continuing" (section 4.2). *)
Definition lineVerdicts (L : Language) (lx : Lexer) (init : State.t) (k : nat)
    (doc : Document) : list Verdict :=
  classifyTokens L (refreshLine L k doc lx) (carry L init) (tokenize L doc k).

(** Modelled from the spec: one line of [Lex] (sections 2 and 4.5).  The
    cache is refreshed, the tokens are classified and every unit of the line
    is styled; the result is the lexer, the styles of the line and the state
    carried to the next line. *)
Definition lexLine (L : Language) (lx : Lexer) (init : State.t) (k : nat) (doc : Document)
  : Lexer * list State.t * State.t :=
  let sc0 := {| currentPos := lineStart doc k; endPos := lineEnd doc k;
                state := carry L init; styled := [] |} in
  let sc := Complete (foldl colorVerdict sc0 (lineVerdicts L lx init k doc)) in
  (refreshLine L k doc lx, styled sc, carry L (state sc)).

(** Modelled from the spec: the line loop of [Lex], [n] lines from line [k]
    on, "threading StyleState from each line's end to the next line's start"
    (section 4.5). *)
Fixpoint lexLines (L : Language) (n k : nat) (lx : Lexer) (init : State.t) (doc : Document)
  : Lexer * State.t * Document :=
  match n with
  | 0 => (lx, init, doc)
  | S n' =>
      let '(lx', sty, out) := lexLine L lx init k doc in
      lexLines L n' (S k) lx' out (set_styles (setStyles (lineStart doc k) sty (styles doc)) doc)
  end.

(** Modelled from the spec: section 4.5, "whole lines overlapping
    [startOffset, startOffset+length)"; their number, counted from the line
    of [startPos]. *)
Definition linesInRange (doc : Document) (startPos lengthDoc : nat) : nat :=
  if decide (lengthDoc = 0) then 0
  else S (getLine doc (startPos + lengthDoc - 1) - getLine doc startPos).

(** Modelled from the spec: section 4.4, "a [Lex] call spanning the whole
    document". *)
Definition spansDocument (doc : Document) (startPos lengthDoc : nat) : bool :=
  bool_decide (startPos = 0 ∧ docLength doc ≤ lengthDoc).

(** Modelled from the spec: the cache "from empty" (section 4.4). *)
Definition clearProperties (lx : Lexer) : Lexer := set_properties [] ∅ lx.

(** Modelled from the spec: [Lex] has no body in the sources.  Section 4.5:
    nothing happens unless the lexer is usable; otherwise the whole lines
    that overlap the range go through the tokenizer and the classifier in
    order, the state is threaded from line to line and the styles are
    written through the accessor.  Section 4.4: a call that spans the whole
    document rebuilds the cache from empty. *)
Definition Lex (L : Language) (startPos lengthDoc : nat) (initStyle : State.t)
    (lx : Lexer) (doc : Document) : Lexer * Document :=
  if isUsable lx then
    let lx0 := if spansDocument doc startPos lengthDoc then clearProperties lx else lx in
    let '(lx', _, doc') :=
      lexLines L (linesInRange doc startPos lengthDoc) (getLine doc startPos) lx0 initStyle doc in
    (lx', doc')
  else (lx, doc).

(** *** FoldComputer (section 4.3) *)

(** Modelled from the spec: [isComment] has no body in the sources; its
    comment reads "If a style (from StyleContext) is a comment style defined
    by this lexer". *)
Definition isComment (style : State.t) : bool :=
  match style with
  | State.Comment | State.CommentMultiLine | State.CommentDoc => true
  | _ => false
  end.

(** Modelled from the spec: section 4.3, "fold markers inside strings or
    comments must not affect depth".  The token lies in a comment or in a
    string, going by the style its first unit has in the document. *)
Definition inCommentOrString (doc : Document) (t : Token) : bool :=
  match styles doc !! startPos t with
  | Some s => isComment s || bool_decide (s = State.String)
  | None => false
  end.

(** Modelled from the spec: the walk of section 4.3 over the tokens of a
    line keeps the pending depth, the depth with the closes of the line
    applied and its opens left out, and whether a fold-middle marker was
    met. *)
Record FoldWalk := { pending : Z; closed : Z; middle : bool }.

(** Modelled from the spec: one step of the walk of section 4.3; the
    decrement of a fold-close is "clamped at zero". *)
Definition foldToken (lx : Lexer) (w : FoldWalk) (t : Token) : FoldWalk :=
  match tokenType t with
  | Identifier =>
      if InList (wordListFoldOpen lx) (content t) then
        {| pending := pending w + 1; closed := closed w; middle := middle w |}
      else if InList (wordListFoldClose lx) (content t) then
        {| pending := Z.max 0 (pending w - 1); closed := Z.max 0 (closed w - 1);
           middle := middle w |}
      else if InList (wordListFoldMiddle lx) (content t) then
        {| pending := pending w; closed := closed w; middle := true |}
      else w
  | _ => w
  end.

Record FoldResult := {
  newDepth : Z;
  lineLevel : Z;
  isHeaderLine : bool;
  isTransition : bool
}.

(** Modelled from the spec: the fold computation is part of Lexer.cpp.
    Section 4.3, [foldLevel(tokens, previousDepth) -> (newDepth,
    isHeaderLine)]: an identifier of the fold-open list increments the
    pending depth, one of the fold-close list decrements it, clamped at
    zero, a fold-middle marker marks the line; the level reported for the
    line is the depth before its opens are applied, and the line is a header
    when the depth after it is higher than before it. *)
Definition foldLevel (lx : Lexer) (toks : list Token) (previousDepth : Z) : FoldResult :=
  let w := foldl (foldToken lx)
                 {| pending := previousDepth; closed := previousDepth; middle := false |}
                 toks in
  {| newDepth := pending w;
     lineLevel := closed w;
     isHeaderLine := bool_decide (previousDepth < pending w)%Z;
     isTransition := middle w |}.

(** Modelled from the spec: the tokens of line [k] that count for folding,
    those outside comments and strings (section 4.3). *)
Definition foldTokens (L : Language) (doc : Document) (k : nat) : list Token :=
  filter (fun t => inCommentOrString doc t = false) (tokenize L doc k).

(** Modelled from the spec: the line loop of [Fold] (section 4.5), [n]
    lines from line [k] on; the result is the depth carried out of the last
    line and the document. *)
Fixpoint foldLines (L : Language) (lx : Lexer) (n k : nat) (prev : Z) (doc : Document)
  : Z * Document :=
  match n with
  | 0 => (prev, doc)
  | S n' =>
      let r := foldLevel lx (foldTokens L doc k) prev in
      foldLines L lx n' (S k) (newDepth r)
        (setLevel k {| depth := lineLevel r; header := isHeaderLine r;
                       transition := isTransition r |} doc)
  end.

(** Modelled from the spec: [Fold] has no body in the sources.  Section
    4.5: nothing happens unless the lexer is usable; otherwise the same line
    iteration as [Lex], with a depth that is seeded from the depth the
    document records at [startPos] and carried from line to line, and the
    fold levels written through the accessor. *)
Definition Fold (L : Language) (startPos lengthDoc : nat) (initStyle : State.t)
    (lx : Lexer) (doc : Document) : Document :=
  if isUsable lx then
    let k := getLine doc startPos in
    snd (foldLines L lx (linesInRange doc startPos lengthDoc) k (levelAt doc k) doc)
  else doc.

End Lexer.

(** ** A configuration to run the lexer on

    The delimiters of Papyrus scripts, UTF-8 for wide characters, and the
    declaration shape of the specification's example line
    [Property Int Health Auto]. *)

Module Papyrus.
Import Lexer.

Definition utf8Length (c : ascii) : nat :=
  let n := nat_of_ascii c in
  if bool_decide (n < 192) then 1
  else if bool_decide (n < 224) then 2
  else if bool_decide (n < 240) then 3
  else if bool_decide (n < 248) then 4
  else 1.

Definition quote : string := String "034"%char EmptyString.

Definition declaration (toks : list Token) : option string :=
  match toks with
  | p :: ty :: n :: _ =>
      if bool_decide (tokenType p = Identifier ∧ lowercase (content p) = "property"
                      ∧ tokenType ty = Identifier ∧ tokenType n = Identifier)
      then Some (content n) else None
  | _ => None
  end.

Definition language : Language :=
  {| identifierExtra := fun c => bool_decide (c = "_"%char);
     unitLength := utf8Length;
     operators := ["=="; "!="; "<="; ">="; "&&"; "||"; "+="; "-="; "*="; "/="];
     lineComment := ";";
     regions := [ {| kind := MultiLineComment; opening := ";/"; closing := "/;" |};
                  {| kind := DocComment; opening := "{"; closing := "}" |};
                  {| kind := StringLiteral; opening := quote; closing := quote |} ];
     propertyDeclaration := declaration |}.

Definition lexer (usable : bool) : Lexer :=
  {| wordListOperators := ["as"; "new"];
     wordListFlowControl := ["if"; "else"; "endif"; "while"; "endwhile"; "return"];
     wordListTypes := ["int"; "bool"; "float"; "string"];
     wordListKeywords := ["property"; "function"; "endfunction"; "event"; "endevent"];
     wordListKeywords2 := ["auto"; "hidden"];
     wordListFoldOpen := ["if"; "while"; "function"; "event"];
     wordListFoldMiddle := ["else"];
     wordListFoldClose := ["endif"; "endwhile"; "endfunction"; "endevent"];
     propertyLines := [];
     propertyNames := ∅;
     configFileExists := usable |}.

(** A line of text with a line feed at its end. *)
Definition ln (s : string) : list ascii := String.list_ascii_of_string s ++ ["010"%char].

Definition document (ls : list string) : Document :=
  {| text := ln <$> ls; styles := ∅; levels := ∅ |}.

End Papyrus.

(** ** A dialog to run the operations on: two visible tabs, one hidden. *)

Module DialogExample.
Import MultiTabbedDialog.
Local Open Scope Z_scope.

Definition sample : Dialog :=
  {| tabs := [{| tab := 1 |}; {| tab := 2 |}];
     hiddenTabs := [{| tab := 3 |}];
     tabItems := {[ 1 := {| dialogID := 101; handle := 7001 |};
                    2 := {| dialogID := 102; handle := nullptr |};
                    3 := {| dialogID := 103; handle := 7003 |} ]};
     currentTab := 1;
     handles := [7002];
     events := [] |}.

(** Helpers to run [showTab] with in the examples: a dialog counts as
    created when the handle of its item is not null, and showing or hiding
    it is one [ShowWindow] on that handle. *)
Definition header : Header :=
  {| isTabDialogCreated t :=
       gets (fun d => match tabItems d !! t with
                      | Some item => bool_decide (handle item ≠ nullptr)
                      | None => false
                      end);
     setTabVisibility t show :=
       h ← gets (fun d => match tabItems d !! t with
                          | Some item => handle item
                          | None => nullptr
                          end);
       emit (ShowWindow h show);
     getTabIndexOf t := gets (fun d => getTabIndex (find_tab t (tabs d))) |}.

End DialogExample.

(** ** Statements about passes over a document *)

Module Passes.
Import Lexer.

(** The pass over the whole document. *)
Definition wholeDocument (L : Language) (lx0 : Lexer) (doc : Document) : Lexer * Document :=
  Lex L 0 (docLength doc) State.Default lx0 doc.


(** Exactly line [k] lexed again. *)
Definition relexLine (L : Language) (k : nat) (initStyle : State.t) (lx : Lexer) (doc : Document)
  : Lexer * Document :=
  Lex L (lineStart doc k) (lineLength doc k) initStyle lx doc.

(** The document with line [k] replaced. *)
Definition editLine (k : nat) (s : list ascii) (doc : Document) : Document :=
  {| text := <[k := s]> (text doc); styles := styles doc; levels := levels doc |}.

(** *** Section 4.2, rule 4, in the words of the specification *)

(** The categories of section 4.2, rule 4, in the order of the rule. *)
Definition precedence (lx : Lexer) : list (list string * State.t) :=
  [ (wordListOperators lx, State.Operator);
    (wordListFlowControl lx, State.FlowControl);
    (wordListTypes lx, State.Type_);
    (wordListKeywords lx, State.Keyword);
    (wordListKeywords2 lx, State.Keyword2) ].

(** The first category that holds the word decides; without one, a declared
    property name is a property and anything else is plain. *)
Definition resolve (lx : Lexer) (w : string) : State.t :=
  match List.find (fun c => InList c.1 w) (precedence lx) with
  | Some c => c.2
  | None => if bool_decide (w ∈ propertyNames lx) then State.Property else State.Default
  end.

(** *** Invariants used in the proofs *)



(** The depths of a fold walk are not negative. *)
Definition nonneg (w : FoldWalk) : Prop := (0 ≤ pending w ∧ 0 ≤ closed w)%Z.

(** A token that closes a fold. *)
Definition closesFold (lx : Lexer) (t : Token) : Prop :=
  tokenType t = Identifier ∧
  InList (wordListFoldOpen lx) (content t) = false ∧
  InList (wordListFoldClose lx) (content t) = true.

End Passes.

Module PassExamples.
Import Lexer Papyrus Passes.

(** A reference to a property ahead of its declaration. *)
Definition forward : Document := document ["x = Health"; "Property Int Health Auto"].

(** The same property declared on two lines. *)
Definition twice : Document := document ["Property Int Health Auto"; "Property Int Health Auto"].

(** The fold scenario of section 8. *)
Definition conditional : Document := document ["If x"; "  y = 1"; "EndIf"].

(** A declaration, and a reference two lines further down. *)
Definition declared : Document := document ["Property Int Health Auto"; ""; "x = Health"].


End PassExamples.

(** ** The rest of MultiTabbedDialog.cpp

    The destructor, [handleNotifyMessage] and [tabDialogProc].  What reaches
    them from outside, the answer of the tabs control to [TCM_GETCURSEL], the
    notification header behind [lParam], the user data the window manager
    keeps for each window, is an argument; so are the members that the
    absent header declares: the id of the tabs control, the handler of the
    base class and the virtual [handleTabCommandMessage]. *)

Module DialogRest.
Import MultiTabbedDialog.
Local Open Scope Z_scope.

(** [std::map] is iterated in ascending key order. *)
Definition key_le (p q : Z * TabItem) : Prop := p.1 ≤ q.1.

#[export] Instance key_le_dec p q : Decision (key_le p q).
Proof. unfold key_le. apply _. Defined.

Definition inOrder (m : gmap Z TabItem) : list (Z * TabItem) :=
  merge_sort key_le (map_to_list m).

(** The body of the destructor's loop. *)
Definition destroyItem (tabItem : Z * TabItem) : M unit :=
  let h := handle tabItem.2 in
  if decide (h ≠ nullptr) then emit (DestroyWindow h) else mret tt.

(** [~MultiTabbedDialog] *)
Definition destructor : M unit :=
  items ← gets (fun d => inOrder (tabItems d));
  foldr (fun tabItem rest => destroyItem tabItem;; rest) (mret tt) items.

(** The handles the destructor destroys, in its order. *)
Definition liveHandles (d : Dialog) : list Z :=
  filter (fun h => h ≠ nullptr) ((fun p => handle p.2) <$> inOrder (tabItems d)).

(** [NMHDR], the fields the dialog reads. *)
Record NMHDR := { idFrom : Z; code : Z }.

(** [TCN_SELCHANGE] of commctrl.h: [TCN_FIRST - 1] with [TCN_FIRST] being
    [0U - 550U], an unsigned 32-bit value. *)
Definition TCN_SELCHANGE : Z := 2 ^ 32 - 551.

Definition TRUE : Z := 1.
Definition FALSE : Z := 0.

(** The conversion of an [int] to [UINT_PTR], [bits] wide, that the
    comparison [nmhdr.idFrom == tabsControlID] makes. *)
Definition toUINT_PTR (bits : Z) (z : Z) : Z := z mod 2 ^ bits.

(** [static_cast<int>] of an [LRESULT]. *)
Definition toInt (z : Z) : Z := (z + 2 ^ 31) mod 2 ^ 32 - 2 ^ 31.

(** [handleNotifyMessage]; [curSel] is what the tabs control answers to
    [TCM_GETCURSEL], a query that changes nothing and stands here as its
    answer.  [std::next(tabs.begin(), tabIndex)] designates a node for an
    index from zero to below the number of tabs; for any other index the
    dereference is undefined.  [base] is [DialogBase::handleNotifyMessage]. *)
Definition handleNotifyMessage (hpp : Header) (bits tabsControlID : Z)
    (base : Z -> NMHDR -> M Z) (wParam : Z) (nmhdr : NMHDR) (curSel : Z) : M Z :=
  if decide (idFrom nmhdr = toUINT_PTR bits tabsControlID) then
    (if decide (code nmhdr = TCN_SELCHANGE) then
       let tabIndex := toInt curSel in
       ts ← gets tabs;
       match (if decide (0 ≤ tabIndex) then ts !! Z.to_nat tabIndex else None) with
       | Some x => showTab hpp (tab x)
       | None => undefined
       end
     else mret tt);;
    mret TRUE
  else base wParam nmhdr.

Definition WM_INITDIALOG : Z := 272.   (* 0x0110 *)
Definition WM_COMMAND : Z := 273.      (* 0x0111 *)

(** [GetWindowLongPtr(hwnd, GWLP_USERDATA)]: what was stored last for the
    window, zero if nothing was. *)
Definition getUserData (userData : gmap Z Z) (hwnd : Z) : Z :=
  default 0 (userData !! hwnd).

(** [tabDialogProc].  [userData] is the user data of each window; [tabAt]
    tells which [Tab] lives at an address, and to go through a pointer to
    anything else is undefined.  The result is the user data after the call,
    the dialog and the outcome. *)
Definition tabDialogProc (tabAt : Z -> option Tab)
    (handleTabCommandMessage : Z -> Z -> Z -> M Z)
    (hwnd message wParam lParam : Z) (userData : gmap Z Z) (d : Dialog)
  : gmap Z Z * (Dialog * Outcome Z) :=
  if decide (message = WM_INITDIALOG) then
    (<[hwnd := lParam]> userData, (d, Returned TRUE))
  else if decide (message = WM_COMMAND) then
    let tabInfo := getUserData userData hwnd in
    if decide (tabInfo = nullptr) then (userData, (d, Returned FALSE))
    else match tabAt tabInfo with
         | Some x => (userData, handleTabCommandMessage (tab x) wParam lParam d)
         | None => (userData, (d, Undefined))
         end
  else (userData, (d, Returned FALSE)).

(** A computation that returns, under which the dialog only grows and the
    current tab stays. *)
Definition quiet {A} (m : M A) : Prop :=
  ∀ d, ∃ a d', m d = (d', Returned a) ∧ grows d d' ∧ currentTab d' = currentTab d.

(** The events of [l'] that come after those of [l]. *)
Definition since (l l' : list Event) : list Event := drop (length l) l'.

(** A computation under which the dialog only grows, whatever its
    outcome. *)
Definition gentle {A} (m : M A) : Prop := ∀ d, grows d (m d).1.

(** Helpers that leave the tabs where they are and drop no item. *)
Definition gentleHeader (hpp : Header) : Prop :=
  (∀ t, gentle (isTabDialogCreated hpp t)) ∧
  (∀ t show, gentle (setTabVisibility hpp t show)) ∧
  (∀ t, gentle (getTabIndexOf hpp t)).

(** Helpers that return, leave the tabs where they are, drop no item and
    do not touch [currentTab]. *)
Definition quietHeader (hpp : Header) : Prop :=
  (∀ t, quiet (isTabDialogCreated hpp t)) ∧
  (∀ t show, quiet (setTabVisibility hpp t show)) ∧
  (∀ t, quiet (getTabIndexOf hpp t)).

End DialogRest.

(** ** Properties of the multi-tabbed dialog *)

Module DialogFacts.
Import MultiTabbedDialog DialogExample.

Lemma find_tab_le (t : Z) (l : list Tab) : find_tab t l ≤ length l.
Proof. induction l as [|x l IH]; simpl; [lia|]. case_decide; lia. Qed.

Lemma find_tab_lt (t : Z) (l : list Tab) : find_tab t l < length l ↔ t ∈ ids l.
Proof.
  induction l as [|x l IH]; simpl.
  - split; [lia | intros H; inversion H].
  - case_decide as Hx.
    + split; [intros _; subst; left | lia].
    + rewrite elem_of_cons, <- IH. split; [intros; right; lia | intros [?|?]; [congruence | lia]].
Qed.

Lemma find_tab_lookup (t : Z) (l : list Tab) :
  t ∈ ids l → l !! find_tab t l = Some {| tab := t |}.
Proof.
  induction l as [|x l IH]; simpl; intros H; [inversion H|].
  case_decide as Hx.
  - destruct x; simpl in *; by subst.
  - apply elem_of_cons in H as [?|?]; [congruence | by apply IH].
Qed.

Lemma find_tab_end (t : Z) (l : list Tab) : find_tab t l = length l ↔ t ∉ ids l.
Proof. rewrite <- find_tab_lt. pose proof (find_tab_le t l). lia. Qed.


(** C10.  [showTab(t)] with [t] already current changes nothing: the dialog
    comes back as it was (same current tab, same tab items, so no tab dialog
    created, and not a single call to the window manager, so no visibility
    and no selection changed).  None of the helpers of the header is called,
    so this holds whatever they do. *)
Theorem showTab_current (hpp : Header) (d : Dialog) (t : Z) :
  currentTab d = t → showTab hpp t d = (d, Returned tt).
Proof.
  intros Hcur. unfold showTab, mbind, M_bind, gets; simpl.
  case_decide as Hne; [congruence | reflexivity].
Qed.

Lemma removeTab_absent (d : Dialog) (t : Z) (destroy : bool) :
  t ∉ ids (tabs d) → removeTab t destroy d = (d, Returned false).
Proof.
  intros Hno. apply find_tab_end in Hno.
  unfold removeTab, mbind, M_bind, findTab, gets; simpl.
  case_decide; [congruence | reflexivity].
Qed.

Lemma removeTab_hide (d : Dialog) (t : Z) :
  t ∈ ids (tabs d) →
  removeTab t false d =
    (set_events (events d ++ [SendDlgItemMessage TCM_DELETEITEM (Z.of_nat (find_tab t (tabs d))) None])
       (set_hiddenTabs (hiddenTabs d ++ [{| tab := t |}])
          (set_tabs (delete (find_tab t (tabs d)) (tabs d)) d)),
     Returned true).
Proof.
  intros Hin. pose proof (find_tab_lookup _ _ Hin) as Hlk.
  apply find_tab_lt in Hin.
  unfold removeTab, mbind, M_bind, findTab, gets, emit, modify; simpl.
  case_decide; [|lia]. simpl.
  unfold splice_from. rewrite Hlk. unfold insert_at, erase.
  rewrite take_ge, drop_ge by lia. reflexivity.
Qed.

Lemma removeTab_destroy (d : Dialog) (t : Z) (item : TabItem) :
  t ∈ ids (tabs d) → tabItems d !! t = Some item →
  removeTab t true d =
    (set_events (events d ++ [SendDlgItemMessage TCM_DELETEITEM (Z.of_nat (find_tab t (tabs d))) None;
                              DestroyWindow (handle item); onTabDialogDestroyed t])
       (set_tabItems (delete t (tabItems d))
          (set_tabs (delete (find_tab t (tabs d)) (tabs d)) d)),
     Returned true).
Proof.
  intros Hin Hitem. apply find_tab_lt in Hin.
  unfold removeTab, mbind, M_bind, findTab, gets, emit, modify; simpl.
  case_decide; [|lia]. simpl. rewrite Hitem. simpl.
  unfold set_events, set_tabItems, set_tabs; simpl.
  by rewrite <- !app_assoc.
Qed.

(** *** The class invariant is kept *)

Lemma grows_refl d : grows d d.
Proof. by repeat split. Qed.

Lemma grows_trans d1 d2 d3 : grows d1 d2 → grows d2 d3 → grows d1 d3.
Proof.
  intros (H1 & H2 & H3) (H4 & H5 & H6). repeat split; [congruence..|]. auto.
Qed.

Lemma grows_consistent d d' : grows d d' → consistent d → consistent d'.
Proof.
  intros (H1 & H2 & H3) [Hnd Hit]. split; rewrite H1, H2; [done|]. auto.
Qed.

Lemma is_Some_insert (m : gmap Z TabItem) t x t' :
  is_Some (m !! t') → is_Some (<[t := x]> m !! t').
Proof. intros H. rewrite lookup_insert_is_Some'. by right. Qed.

Lemma steady_ret {A} (a : A) : steady (mret a).
Proof. intros d. exists a, d. split; [done | apply grows_refl]. Qed.

Lemma steady_bind {A B} (m : M A) (f : A → M B) :
  steady m → (∀ a, steady (f a)) → steady (m ≫= f).
Proof.
  intros Hm Hf d. destruct (Hm d) as (a & d1 & Hm1 & Hg1).
  destruct (Hf a d1) as (b & d2 & Hf1 & Hg2).
  exists b, d2. unfold mbind, M_bind. rewrite Hm1. split; [done | by eapply grows_trans].
Qed.

Lemma steady_gets {A} (f : Dialog → A) : steady (gets f).
Proof. intros d. exists (f d), d. split; [done | apply grows_refl]. Qed.

Lemma steady_emit e : steady (emit e).
Proof. intros d. eexists tt, _. split; [done|]. by repeat split. Qed.

Lemma steady_set_currentTab t : steady (modify (set_currentTab t)).
Proof. intros d. eexists tt, _. split; [done|]. by repeat split. Qed.

Lemma steady_set_handles hs : steady (modify (set_handles hs)).
Proof. intros d. eexists tt, _. split; [done|]. by repeat split. Qed.

Lemma steady_insert_item t x :
  steady (modify (fun d => set_tabItems (<[t := x]> (tabItems d)) d)).
Proof.
  intros d. eexists tt, _. split; [done|]. repeat split. intros t'. apply is_Some_insert.
Qed.

Lemma steady_tabItems_at t : steady (tabItems_at t).
Proof.
  intros d. unfold tabItems_at. destruct (tabItems d !! t) as [item|].
  - exists item, d. split; [done | apply grows_refl].
  - eexists _, _. split; [done|]. repeat split. intros t'. apply is_Some_insert.
Qed.

Ltac steady_step :=
  repeat first
    [ apply steady_ret | apply steady_gets | apply steady_emit | apply steady_set_currentTab
    | apply steady_set_handles | apply steady_insert_item | apply steady_tabItems_at
    | apply steady_bind; [|intros ?]
    | case_decide | case_match ].

Lemma steady_createTabDialog t : steady (createTabDialog t).
Proof. unfold createTabDialog, findTab, createDialogParam. steady_step. Qed.

Lemma ids_insert_at pos x l : ids (insert_at pos x l) ≡ₚ tab x :: ids l.
Proof.
  unfold ids, insert_at. rewrite map_app. simpl.
  rewrite <- Permutation_middle, <- map_app, take_drop. done.
Qed.

Lemma ids_delete i x (l : list Tab) : l !! i = Some x → ids l ≡ₚ tab x :: ids (delete i l).
Proof.
  intros H. unfold ids. change (tab x :: map tab (delete i l)) with (map tab (x :: delete i l)).
  apply Permutation_map. by apply delete_Permutation.
Qed.

Lemma consistent_removeTab t destroy d : consistent d → consistent (removeTab t destroy d).1.
Proof.
  intros Hc. pose proof Hc as [Hnd Hit].
  destruct (decide (t ∈ ids (tabs d))) as [Hin|Hno].
  - pose proof (find_tab_lookup _ _ Hin) as Hlk.
    pose proof (ids_delete _ _ _ Hlk) as Hperm. simpl in Hperm.
    destruct destroy.
    + destruct (Hit t) as [item Hitem]; [apply elem_of_app; by left|].
      rewrite (removeTab_destroy _ _ _ Hin Hitem). simpl.
      rewrite Hperm in Hnd. simpl in Hnd. apply NoDup_cons in Hnd as [Hfresh Hnd].
      split; simpl; [done|].
      intros t' Ht'. rewrite lookup_delete_ne by (intros ->; contradiction).
      apply Hit. rewrite Hperm. simpl. by right.
    + rewrite (removeTab_hide _ _ Hin). simpl.
      assert (ids (delete (find_tab t (tabs d)) (tabs d)) ++ ids (hiddenTabs d ++ [{| tab := t |}])
              ≡ₚ ids (tabs d) ++ ids (hiddenTabs d)) as Hp.
      { rewrite Hperm. unfold ids at 2. rewrite map_app. simpl.
        rewrite app_assoc, <- Permutation_cons_append. done. }
      split; simpl.
      * by rewrite Hp.
      * intros t' Ht'. apply Hit. by rewrite <- Hp.
  - by rewrite (removeTab_absent _ _ _ Hno).
Qed.




Lemma sample_consistent : consistent sample.
Proof.
  split.
  - apply (bool_decide_unpack _). vm_compute. exact I.
  - apply Forall_forall. apply (bool_decide_unpack _). vm_compute. exact I.
Defined.


Lemma showTab_current_witness : showTab header 1%Z sample = (sample, Returned tt).
Proof. apply (showTab_current header sample 1%Z). reflexivity. Defined.

(** C8.  Adding a tab id that the dialog already has, visible or hidden,
    with a dialog resource other than the one it was given first, throws
    [std::invalid_argument].  The exception is the outcome handed to the
    caller of [addTabAt]: whatever the caller meant to do next is skipped and
    the exception is its outcome too.  The dialog is left as it was and no
    message is sent to the tabs control.  The exception lives in the
    outcomes of the dialog's operations; the lexer's entry points have no
    such outcome and take no dialog. *)
Theorem addTabAt_duplicate (d : Dialog) (t dlg : Z) (text : string) (pos : nat)
    (lazyInitialization : bool) (item : TabItem) :
  t ∈ ids (tabs d) ++ ids (hiddenTabs d) →
  tabItems d !! t = Some item →
  dialogID item ≠ dlg →
  addTabAt t dlg text pos lazyInitialization d = (d, Thrown duplicate_tab_error) ∧
  ∀ (B : Type) (next : unit → M B),
    (addTabAt t dlg text pos lazyInitialization ≫= next) d = (d, Thrown duplicate_tab_error).
Proof.
  intros Hin Hitem Hne.
  assert (addTabAt t dlg text pos lazyInitialization d = (d, Thrown duplicate_tab_error)) as Hthrow.
  { unfold addTabAt, mbind, M_bind, findTab, gets; simpl.
    case_decide as Hvis; simpl.
    - unfold tabItems_at. rewrite Hitem. case_decide; [reflexivity | contradiction].
    - assert (t ∈ ids (hiddenTabs d)) as Hhid.
      { apply elem_of_app in Hin as [Hin|Hin]; [|done].
        apply find_tab_lt in Hin. lia. }
      apply find_tab_lt in Hhid.
      case_decide; [|lia]. simpl.
      unfold tabItems_at. rewrite Hitem. case_decide; [reflexivity | contradiction]. }
  split; [exact Hthrow|].
  intros B next. unfold mbind, M_bind at 1. by rewrite Hthrow.
Qed.

Lemma addTabAt_duplicate_witness :
  addTabAt 3%Z 999%Z "Settings" 0 true sample = (sample, Thrown duplicate_tab_error).
Proof.
  apply (addTabAt_duplicate sample 3 999 "Settings" 0 true {| dialogID := 103; handle := 7003 |}%Z).
  - apply (bool_decide_unpack _). vm_compute. exact I.
  - vm_compute. reflexivity.
  - vm_compute. discriminate.
Defined.

End DialogFacts.

(** ** Properties of the lexer *)

Module LexerFacts.
Import Lexer Passes Papyrus PassExamples.

(** C6.  The style ids are the seventeen names of the taxonomy and nothing
    else, each once, and their ordinals count up from zero in that order:
    Default is 0, Operator 1, and so on up to Function, 16. *)
Theorem State_taxonomy :
  State.ordinal <$> State.taxonomy = Z.of_nat <$> seq 0 17 ∧
  NoDup State.taxonomy ∧
  (∀ s : State.t, s ∈ State.taxonomy) ∧
  (∀ s : State.t, State.of_ordinal (State.ordinal s) = Some s) ∧
  (∀ s : State.t, State.taxonomy !! Z.to_nat (State.ordinal s) = Some s).
Proof.
  split; [reflexivity|]. split.
  - apply (bool_decide_unpack _). vm_compute. exact I.
  - split; [|split]; intros s; destruct s; try reflexivity;
      apply (bool_decide_unpack _); vm_compute; exact I.
Qed.

(** *** The text is never touched *)










(** C5.  A lexer that is not usable does nothing: [Lex] returns the lexer
    and the document it was given, [Fold] returns the document it was given,
    so no style and no fold level has been written. *)
Theorem unusable_noop (L : Language) (startPos lengthDoc : nat) (initStyle : State.t)
    (lx : Lexer) (doc : Document) :
  isUsable lx = false →
  Lex L startPos lengthDoc initStyle lx doc = (lx, doc) ∧
  Fold L startPos lengthDoc initStyle lx doc = doc.
Proof. intros H. unfold Lex, Fold. rewrite H. split; reflexivity. Qed.

Lemma classifyIdentifier_resolve lx w : classifyIdentifier lx w = resolve lx w.
Proof.
  unfold classifyIdentifier, resolve, precedence; simpl.
  repeat (destruct (InList _ w); [reflexivity|]). reflexivity.
Qed.

Lemma classify_identifier L lx t cur :
  tokenType t = Identifier → isOpenState L cur = false → cur ≠ State.Comment →
  classify L lx t cur = (classifyIdentifier lx (content t), State.Default).
Proof.
  intros Hty Hopen Hcom. unfold classify, opens. rewrite Hopen, Hty.
  rewrite bool_decide_eq_false_2 by done. simpl. reflexivity.
Qed.

(** C2.  An identifier outside comments and strings gets the style of the
    first category, in the order operators, flow control, types, keywords,
    keywords2, that holds it; failing all five it is a property when its
    name is declared, and plain otherwise.  Each style is reached in exactly
    one way, so one category decides. *)
Theorem identifier_precedence (L : Language) (lx : Lexer) (t : Token) (cur : State.t) :
  tokenType t = Identifier →
  isOpenState L cur = false →
  cur ≠ State.Comment →
  let w := content t in
  let sty := (classify L lx t cur).1 in
  let op := InList (wordListOperators lx) w in
  let fc := InList (wordListFlowControl lx) w in
  let ty := InList (wordListTypes lx) w in
  let kw := InList (wordListKeywords lx) w in
  let k2 := InList (wordListKeywords2 lx) w in
  sty = resolve lx w ∧
  (sty = State.Operator ↔ op = true) ∧
  (sty = State.FlowControl ↔ op = false ∧ fc = true) ∧
  (sty = State.Type_ ↔ op = false ∧ fc = false ∧ ty = true) ∧
  (sty = State.Keyword ↔ op = false ∧ fc = false ∧ ty = false ∧ kw = true) ∧
  (sty = State.Keyword2 ↔ op = false ∧ fc = false ∧ ty = false ∧ kw = false ∧ k2 = true) ∧
  (sty = State.Property ↔
     op = false ∧ fc = false ∧ ty = false ∧ kw = false ∧ k2 = false ∧ w ∈ propertyNames lx) ∧
  (sty = State.Default ↔
     op = false ∧ fc = false ∧ ty = false ∧ kw = false ∧ k2 = false ∧ w ∉ propertyNames lx).
Proof.
  intros Hty Hopen Hcom. simpl. rewrite (classify_identifier _ _ _ _ Hty Hopen Hcom). simpl.
  split; [apply classifyIdentifier_resolve|].
  unfold classifyIdentifier.
  destruct (InList (wordListOperators lx) _), (InList (wordListFlowControl lx) _),
    (InList (wordListTypes lx) _), (InList (wordListKeywords lx) _),
    (InList (wordListKeywords2 lx) _); try case_bool_decide;
    repeat split; intros; destruct_and?; try discriminate; try reflexivity; try done.
Qed.

(** *** Lines and positions *)








(** *** The style buffer *)


(** *** Styling a line covers the line *)






(** *** Lexing one line again *)













(** *** The set of names follows the list of properties *)





(** *** The tokens of a line lie in the line, in order *)














(** *** The style of a token in the document is the classifier's verdict *)











Section FoldDepth.
Local Open Scope Z_scope.

(** *** Fold depth *)

Lemma foldToken_nonneg lx w t : nonneg w → nonneg (foldToken lx w t).
Proof.
  intros [H1 H2]. unfold foldToken, nonneg.
  destruct (tokenType t); [|done..].
  repeat (case_match; simpl; [lia|]). done.
Qed.

Lemma foldl_foldToken_nonneg lx toks w : nonneg w → nonneg (foldl (foldToken lx) w toks).
Proof.
  revert w. induction toks as [|t toks IH]; intros w H; simpl; [done|].
  by apply IH, foldToken_nonneg.
Qed.

Lemma foldLevel_nonneg lx toks prev :
  0 ≤ prev → 0 ≤ newDepth (foldLevel lx toks prev) ∧ 0 ≤ lineLevel (foldLevel lx toks prev).
Proof.
  intros H. unfold foldLevel; simpl.
  apply foldl_foldToken_nonneg. split; simpl; lia.
Qed.

Lemma foldl_closes lx toks w :
  Forall (closesFold lx) toks → 0 ≤ pending w →
  pending (foldl (foldToken lx) w toks) = Z.max 0 (pending w - Z.of_nat (length toks)).
Proof.
  revert w. induction toks as [|t toks IH]; intros w Hall Hw; simpl.
  - lia.
  - apply Forall_cons in Hall as [(Hty & Hop & Hcl) Hall].
    rewrite IH; [|done|].
    + unfold foldToken. rewrite Hty, Hop, Hcl. simpl. lia.
    + unfold foldToken. rewrite Hty, Hop, Hcl. simpl. lia.
Qed.

Lemma foldLines_levels_before L lx n k prev doc (j : nat) :
  (j < k)%nat → levels (foldLines L lx n k prev doc).2 !! j = levels doc !! j.
Proof.
  revert k prev doc. induction n as [|n IH]; intros k prev doc Hj; cbn [foldLines]; [done|].
  rewrite IH by lia. unfold setLevel; simpl. apply lookup_insert_ne. lia.
Qed.

Lemma foldLines_levels L lx n k prev doc :
  0 ≤ prev →
  0 ≤ (foldLines L lx n k prev doc).1 ∧
  ∀ j, (k ≤ j < k + n)%nat →
    ∃ fl, levels (foldLines L lx n k prev doc).2 !! j = Some fl ∧ 0 ≤ depth fl.
Proof.
  revert k prev doc. induction n as [|n IH]; intros k prev doc Hprev; cbn [foldLines].
  - split; [done | intros j Hj; lia].
  - set (r := foldLevel lx (foldTokens L doc k) prev).
    destruct (foldLevel_nonneg lx (foldTokens L doc k) prev Hprev) as [Hd Hl]. fold r in Hd, Hl.
    set (doc1 := setLevel k _ doc).
    destruct (IH (S k) (newDepth r) doc1 Hd) as [IH1 IH2].
    split; [done|]. intros j Hj.
    destruct (decide (j = k)) as [->|Hne].
    + exists {| depth := lineLevel r; header := isHeaderLine r; transition := isTransition r |}.
      split; [|done].
      rewrite foldLines_levels_before by lia.
      unfold doc1, setLevel; simpl. apply lookup_insert_eq.
    + apply IH2. lia.
Qed.

(** C3.  Starting from a depth that is not negative, the fold computer
    returns a depth and a line level that are not negative: a close at depth
    zero leaves the depth at zero, so that [c] closes in a row take the depth
    from [prev] to [max 0 (prev - c)].  The same holds for every depth
    [Fold] carries from line to line and for every level it writes. *)
Theorem fold_depth_never_negative (L : Language) (lx : Lexer) (prev : Z) :
  0 ≤ prev →
  (∀ toks, 0 ≤ newDepth (foldLevel lx toks prev) ∧ 0 ≤ lineLevel (foldLevel lx toks prev)) ∧
  (∀ toks, Forall (closesFold lx) toks →
     newDepth (foldLevel lx toks prev) = Z.max 0 (prev - Z.of_nat (length toks))) ∧
  (∀ n k doc,
     0 ≤ (foldLines L lx n k prev doc).1 ∧
     ∀ j, (k ≤ j < k + n)%nat →
       ∃ fl, levels (foldLines L lx n k prev doc).2 !! j = Some fl ∧ 0 ≤ depth fl) ∧
  (∀ startPos lengthDoc initStyle doc,
     isUsable lx = true →
     levelAt doc (getLine doc startPos) = prev →
     ∀ j, (getLine doc startPos ≤ j < getLine doc startPos + linesInRange doc startPos lengthDoc)%nat →
       ∃ fl, levels (Fold L startPos lengthDoc initStyle lx doc) !! j = Some fl ∧ 0 ≤ depth fl).
Proof.
  intros Hprev. split; [|split; [|split]].
  - intros toks. by apply foldLevel_nonneg.
  - intros toks Hall. unfold foldLevel; simpl. by rewrite foldl_closes.
  - intros n k doc. by apply foldLines_levels.
  - intros startPos lengthDoc initStyle doc Hus Hseed j Hj.
    unfold Fold. rewrite Hus, Hseed. by apply foldLines_levels.
Qed.

End FoldDepth.

(** *** The scenarios of section 8 *)

(** [Property Int Health Auto]: four identifier tokens, [Health] recorded
    with its line, and the styles Keyword, Type, Property, Keyword2. *)
Example declaration_scenario :
  tokenize language twice 1 =
    [ {| content := "Property"; tokenType := Identifier; startPos := 25 |};
      {| content := "Int"; tokenType := Identifier; startPos := 34 |};
      {| content := "Health"; tokenType := Identifier; startPos := 38 |};
      {| content := "Auto"; tokenType := Identifier; startPos := 45 |} ] ∧
  propertyLines (relexLine language 1 State.Default (lexer true) twice).1
    = [ {| name := "Health"; line := 1 |} ] ∧
  styleTag <$> lineVerdicts language (lexer true) State.Default 1 twice
    = [State.Keyword; State.Type_; State.Property; State.Keyword2].
Proof. repeat split; vm_compute; reflexivity. Qed.

(** [If x], [y = 1], [EndIf]: levels 0 (header), 1, 0. *)
Example fold_scenario :
  map_to_list (levels (Fold language 0 (docLength conditional) State.Default (lexer true)
                         conditional))
  ≡ₚ [ (0, {| depth := 0; header := true; transition := false |});
       (1, {| depth := 1; header := false; transition := false |});
       (2, {| depth := 0; header := false; transition := false |}) ].
Proof. vm_compute. by rewrite (Permutation_rev [_; _; _]). Qed.

(** A reference to a declared property, lexed alone with the cache the pass
    over the whole document left, is styled as a property; once the
    declaration is deleted and its line lexed again, it is not. *)
Example reference_scenario :
  let lx := (wholeDocument language (lexer true) declared).1 in
  let edited := editLine 0 (ln "") declared in
  styles (relexLine language 2 State.Default lx declared).2 !! 30 = Some State.Property ∧
  let lx' := (relexLine language 0 State.Default lx edited).1 in
  styles (relexLine language 2 State.Default lx' edited).2 !! 6 = Some State.Default.
Proof. split; vm_compute; reflexivity. Qed.

(** *** The claims at work *)


Lemma unusable_noop_witness :
  Lex language 0 36 State.Default (lexer false) forward = (lexer false, forward) ∧
  Fold language 0 36 State.Default (lexer false) forward = forward.
Proof. apply (unusable_noop language 0 36 State.Default (lexer false) forward). reflexivity. Defined.

(** [Return], a flow-control word, is styled as flow control. *)
Lemma identifier_precedence_witness :
  (classify language (lexer true)
     {| content := "Return"; tokenType := Identifier; startPos := 0 |} State.Default).1
  = State.FlowControl.
Proof.
  destruct (identifier_precedence language (lexer true)
              {| content := "Return"; tokenType := Identifier; startPos := 0 |} State.Default)
    as (_ & _ & H & _).
  - reflexivity.
  - reflexivity.
  - discriminate.
  - apply H. split; reflexivity.
Defined.

(** Two closes at depth one: the depth stays at zero. *)
Lemma fold_depth_never_negative_witness :
  newDepth (foldLevel (lexer true)
              [ {| content := "EndIf"; tokenType := Identifier; startPos := 0 |};
                {| content := "EndIf"; tokenType := Identifier; startPos := 6 |} ] 1) = 0%Z.
Proof.
  destruct (fold_depth_never_negative language (lexer true) 1%Z) as (_ & H & _).
  - lia.
  - rewrite H; [reflexivity|].
    repeat constructor.
Defined.



End LexerFacts.

(** ** More about the multi-tabbed dialog *)

Module DialogExtras.
Import MultiTabbedDialog DialogExample DialogRest DialogFacts.

(** *** Helpers *)

Lemma find_tab_index (l : list Tab) (i : nat) (x : Tab) :
  NoDup (ids l) → l !! i = Some x → find_tab (tab x) l = i.
Proof.
  revert i. induction l as [|y l IH]; intros i Hnd Hi; [by destruct i|].
  apply NoDup_cons in Hnd as [Hy Hnd]. destruct i as [|i]; simpl in *.
  - injection Hi as ->. by rewrite decide_True.
  - rewrite decide_False.
    + f_equal. by apply IH.
    + intros Heq. apply Hy. rewrite Heq.
      apply (list_elem_of_fmap_2 tab). by eapply list_elem_of_lookup_2.
Qed.

Lemma find_tab_insert_at (t : Z) (l : list Tab) (pos : nat) :
  t ∉ ids l → (pos ≤ length l)%nat → find_tab t (insert_at pos {| tab := t |} l) = pos.
Proof.
  revert pos. induction l as [|y l IH]; intros pos Hno Hpos.
  - assert (pos = 0%nat) as -> by (simpl in Hpos; lia). unfold insert_at; simpl.
    by rewrite decide_True.
  - destruct pos as [|pos]; unfold insert_at; simpl.
    + by rewrite decide_True.
    + apply not_elem_of_cons in Hno as [Hy Hno]. rewrite decide_False by done.
      f_equal. apply IH; [done | simpl in Hpos; lia].
Qed.

Lemma insert_at_lookup (x : Tab) (l : list Tab) (pos : nat) :
  (pos ≤ length l)%nat → insert_at pos x l !! pos = Some x.
Proof.
  intros H. unfold insert_at. rewrite lookup_app_r by (rewrite length_take; lia).
  rewrite length_take, Nat.min_l by lia. by rewrite Nat.sub_diag.
Qed.

Lemma delete_insert_at (x : Tab) (l : list Tab) (pos : nat) :
  (pos ≤ length l)%nat → delete pos (insert_at pos x l) = l.
Proof.
  intros H. unfold insert_at. pose proof (length_take_le l pos H) as Hl.
  rewrite <- Hl at 1. rewrite delete_middle. apply take_drop.
Qed.

Lemma ids_insert_at_elem (t : Z) (x : Tab) (l : list Tab) (pos : nat) :
  t ∈ ids (insert_at pos x l) ↔ t = tab x ∨ t ∈ ids l.
Proof. rewrite ids_insert_at. apply elem_of_cons. Qed.

(** What [createTabDialog] does for a visible tab that has its item. *)
Lemma createTabDialog_visible (d : Dialog) (t : Z) (item : TabItem) :
  t ∈ ids (tabs d) → tabItems d !! t = Some item →
  let h := default nullptr (head (handles d)) in
  createTabDialog t d =
    (set_events (events d ++ [CreateDialogParam (dialogID item) t; SetWindowPos h;
                              onTabDialogCreated t])
       (set_tabItems (<[t := {| dialogID := dialogID item; handle := h |}]> (tabItems d))
          (set_handles (tail (handles d)) d)),
     Returned tt).
Proof.
  intros Hin Hitem h. apply find_tab_lt in Hin.
  unfold createTabDialog, createDialogParam, tabItems_at, mbind, M_bind, findTab, gets, emit,
    modify, mret, M_ret; simpl.
  rewrite decide_True by lia. rewrite Hitem. simpl.
  subst h. destruct d as [ts hs its cur hdl evs]; simpl in *.
  destruct hdl as [|h0 hdl]; simpl; unfold set_events, set_tabItems, set_handles; simpl;
    rewrite <- !app_assoc; reflexivity.
Qed.

Lemma createTabDialog_absent (d : Dialog) (t : Z) :
  t ∉ ids (tabs d) → createTabDialog t d = (d, Returned tt).
Proof.
  intros Hno. apply find_tab_end in Hno.
  unfold createTabDialog, mbind, M_bind, findTab, gets; simpl.
  by rewrite decide_False by lia.
Qed.

(** What [addTabAt] does for an id the dialog does not know, before the
    dialog is created. *)
Lemma addTabAt_fresh_pre (d : Dialog) (t dlg : Z) (text : string) (pos : nat)
    (lazyInitialization : bool) :
  t ∉ ids (tabs d) ++ ids (hiddenTabs d) →
  let dNew := set_tabItems (<[t := {| dialogID := dlg; handle := nullptr |}]> (tabItems d))
                (set_tabs (insert_at pos {| tab := t |} (tabs d)) d) in
  addTabAt t dlg text pos lazyInitialization d =
    ((if negb lazyInitialization then createTabDialog t else mret tt) ≫=
       (fun _ => emit (SendDlgItemMessage TCM_INSERTITEM (getTabIndex pos) (Some text)))) dNew.
Proof.
  intros Hfresh dNew. apply not_elem_of_app in Hfresh as [Hv Hh].
  apply find_tab_end in Hv. apply find_tab_end in Hh.
  unfold addTabAt, mbind, M_bind, findTab, gets, mret, M_ret, modify; simpl.
  rewrite decide_False by lia. simpl. rewrite decide_False by lia. simpl.
  reflexivity.
Qed.

Lemma addTabAt_throws (d : Dialog) (t dlg : Z) (text : string) (pos : nat)
    (lazyInitialization : bool) (item : TabItem) :
  t ∈ ids (tabs d) ++ ids (hiddenTabs d) →
  tabItems d !! t = Some item →
  dialogID item ≠ dlg →
  addTabAt t dlg text pos lazyInitialization d = (d, Thrown duplicate_tab_error).
Proof.
  intros Hin Hitem Hne.
  unfold addTabAt, mbind, M_bind, findTab, gets; simpl.
  case_decide as Hvis; simpl.
  - unfold tabItems_at. rewrite Hitem. case_decide; [reflexivity | contradiction].
  - assert (t ∈ ids (hiddenTabs d)) as Hhid.
    { apply elem_of_app in Hin as [Hin|Hin]; [|done].
      apply find_tab_lt in Hin. lia. }
    apply find_tab_lt in Hhid.
    case_decide; [|lia]. simpl.
    unfold tabItems_at. rewrite Hitem. case_decide; [reflexivity | contradiction].
Qed.


(** *** Removing a tab *)

(** X1.  [removeTab(t, true)] on a visible tab of a consistent dialog
    returns [true] after three calls, in this order: [TCM_DELETEITEM] with
    the index of the tab, [DestroyWindow] on the handle of its item (also
    when the handle is null: there is no check), and the hook
    [onTabDialogDestroyed].  The dialog then knows the id no more, neither
    as a tab nor as an item, the hidden tabs and the current tab are as they
    were, and removing the tab once more returns [false]. *)
Theorem removeTab_destroy_forgets (d : Dialog) (t : Z) (item : TabItem) :
  consistent d → t ∈ ids (tabs d) → tabItems d !! t = Some item →
  let d' := (removeTab t true d).1 in
  (removeTab t true d).2 = Returned true ∧
  events d' = events d ++
    [SendDlgItemMessage TCM_DELETEITEM (Z.of_nat (find_tab t (tabs d))) None;
     DestroyWindow (handle item); onTabDialogDestroyed t] ∧
  (t ∉ ids (tabs d') ++ ids (hiddenTabs d')) ∧
  tabItems d' = delete t (tabItems d) ∧
  hiddenTabs d' = hiddenTabs d ∧
  currentTab d' = currentTab d ∧
  ∀ destroy, removeTab t destroy d' = (d', Returned false).
Proof.
  intros [Hnd Hit] Hin Hitem d'. subst d'.
  rewrite (removeTab_destroy _ _ _ Hin Hitem). cbn [fst snd].
  assert (t ∉ ids (delete (find_tab t (tabs d)) (tabs d)) ++ ids (hiddenTabs d)) as Hgone.
  { pose proof (ids_delete _ _ _ (find_tab_lookup _ _ Hin)) as Hperm. simpl in Hperm.
    rewrite Hperm in Hnd. simpl in Hnd. by apply NoDup_cons in Hnd as [? _]. }
  repeat split; try done.
  intros destroy. apply removeTab_absent. simpl.
  intros Hin'. apply Hgone. apply elem_of_app. by left.
Qed.

Lemma removeTab_destroy_forgets_witness :
  (removeTab 1%Z true sample).2 = Returned true.
Proof.
  apply (removeTab_destroy_forgets sample 1%Z {| dialogID := 101; handle := 7001 |}%Z).
  - exact sample_consistent.
  - apply (bool_decide_unpack _). vm_compute. exact I.
  - vm_compute. reflexivity.
Defined.

(** X2.  Once [removeTab(t, true)] has destroyed a tab, [addTabAt] takes the
    id again with any dialog resource: it returns, the tab is visible and
    its item is a new one with that resource.  The handle of the new item is
    null with lazy initialisation, and otherwise the handle that
    [CreateDialogParam] returned for the new dialog. *)
Theorem removeTab_destroy_frees_id (d : Dialog) (t : Z) (item : TabItem) (dlg : Z)
    (text : string) (pos : nat) (lazyInitialization : bool) :
  consistent d → t ∈ ids (tabs d) → tabItems d !! t = Some item →
  let d' := (removeTab t true d).1 in
  let r := addTabAt t dlg text pos lazyInitialization d' in
  r.2 = Returned tt ∧
  t ∈ ids (tabs r.1) ∧
  tabItems r.1 !! t
    = Some {| dialogID := dlg;
              handle := if lazyInitialization then nullptr
                        else default nullptr (head (handles d)) |}.
Proof.
  intros Hc Hin Hitem d' r.
  assert (t ∉ ids (tabs d') ++ ids (hiddenTabs d')) as Hfresh.
  { pose proof Hc as [Hnd Hit]. subst d'.
    rewrite (removeTab_destroy _ _ _ Hin Hitem). cbn [fst snd]. simpl.
    pose proof (ids_delete _ _ _ (find_tab_lookup _ _ Hin)) as Hperm. simpl in Hperm.
    rewrite Hperm in Hnd. simpl in Hnd. by apply NoDup_cons in Hnd as [? _]. }
  assert (handles d' = handles d) as Hhs
    by (subst d'; by rewrite (removeTab_destroy _ _ _ Hin Hitem)).
  subst r. rewrite (addTabAt_fresh_pre d' t dlg text pos lazyInitialization Hfresh).
  set (dNew := set_tabItems _ _).
  assert (t ∈ ids (tabs dNew)) as HinNew by (apply ids_insert_at_elem; by left).
  destruct lazyInitialization; cbn [negb].
  - unfold mbind, M_bind, mret, M_ret, emit, modify; simpl.
    split; [done|]. split; [done|]. apply lookup_insert_eq.
  - unfold mbind, M_bind.
    rewrite (createTabDialog_visible dNew t {| dialogID := dlg; handle := nullptr |} HinNew)
      by apply lookup_insert_eq.
    unfold emit, modify; simpl.
    split; [done|]. split; [done|]. rewrite lookup_insert_eq. by rewrite Hhs.
Qed.

Lemma removeTab_destroy_frees_id_witness :
  tabItems (addTabAt 1%Z 555%Z "General" 0 false (removeTab 1%Z true sample).1).1 !! 1%Z
  = Some {| dialogID := 555%Z; handle := 7002%Z |}.
Proof.
  apply (removeTab_destroy_frees_id sample 1%Z {| dialogID := 101; handle := 7001 |}%Z
           555%Z "General" 0 false).
  - exact sample_consistent.
  - apply (bool_decide_unpack _). vm_compute. exact I.
  - vm_compute. reflexivity.
Defined.

(** X3.  A tab hidden with [removeTab(t, false)] keeps its dialog resource:
    adding the id with another resource throws [std::invalid_argument] and
    leaves the dialog as the removal left it. *)
Theorem removeTab_hide_keeps_id (d : Dialog) (t : Z) (item : TabItem) (dlg : Z)
    (text : string) (pos : nat) (lazyInitialization : bool) :
  consistent d → t ∈ ids (tabs d) → tabItems d !! t = Some item → dialogID item ≠ dlg →
  addTabAt t dlg text pos lazyInitialization (removeTab t false d).1
    = ((removeTab t false d).1, Thrown duplicate_tab_error).
Proof.
  intros Hc Hin Hitem Hne.
  rewrite (removeTab_hide _ _ Hin). cbn [fst].
  apply (addTabAt_throws _ _ _ _ _ _ item); [|done..].
  simpl. apply elem_of_app. right. unfold ids. rewrite map_app. simpl.
  apply elem_of_app. right. by left.
Qed.

Lemma removeTab_hide_keeps_id_witness :
  addTabAt 1%Z 555%Z "General" 0 true (removeTab 1%Z false sample).1
    = ((removeTab 1%Z false sample).1, Thrown duplicate_tab_error).
Proof.
  apply (removeTab_hide_keeps_id sample 1%Z {| dialogID := 101; handle := 7001 |}%Z).
  - exact sample_consistent.
  - apply (bool_decide_unpack _). vm_compute. exact I.
  - vm_compute. reflexivity.
  - vm_compute. discriminate.
Defined.

(** X4.  [removeTab] keeps the dialog consistent, with either value of
    [destroy] and whether or not the tab is there: afterwards no id is twice
    among the visible and hidden tabs and each of them has its item. *)
Theorem removeTab_keeps_consistent (d : Dialog) (t : Z) (destroy : bool) :
  consistent d → consistent (removeTab t destroy d).1.
Proof. apply consistent_removeTab. Qed.

Lemma removeTab_keeps_consistent_witness : consistent (removeTab 2%Z true sample).1.
Proof. apply (removeTab_keeps_consistent sample 2%Z true). exact sample_consistent. Defined.

(** *** Adding a tab *)




(** The dialog [addTabAt] leaves for an id the dialog does not know. *)
Lemma addTabAt_fresh_state (d : Dialog) (t dlg : Z) (text : string) (pos : nat)
    (lazyInitialization : bool) :
  t ∉ ids (tabs d) ++ ids (hiddenTabs d) →
  (pos ≤ length (tabs d))%nat →
  let r := addTabAt t dlg text pos lazyInitialization d in
  let h := if lazyInitialization then nullptr else default nullptr (head (handles d)) in
  r.2 = Returned tt ∧
  tabs r.1 !! pos = Some {| tab := t |} ∧
  find_tab t (tabs r.1) = pos ∧
  delete pos (tabs r.1) = tabs d ∧
  hiddenTabs r.1 = hiddenTabs d ∧
  tabItems r.1 = <[t := {| dialogID := dlg; handle := h |}]> (tabItems d) ∧
  events r.1 = events d ++
    (if lazyInitialization then []
     else [CreateDialogParam dlg t; SetWindowPos h; onTabDialogCreated t]) ++
    [SendDlgItemMessage TCM_INSERTITEM (Z.of_nat pos) (Some text)].
Proof.
  intros Hfresh Hpos r h. subst r h.
  rewrite (addTabAt_fresh_pre d t dlg text pos lazyInitialization Hfresh).
  pose proof Hfresh as [Hv Hh]%not_elem_of_app.
  set (dNew := set_tabItems _ _).
  destruct lazyInitialization; cbn [negb].
  - unfold mbind, M_bind, mret, M_ret, emit, modify, dNew; simpl.
    repeat split.
    + by apply insert_at_lookup.
    + by apply find_tab_insert_at.
    + by apply delete_insert_at.
  - assert (t ∈ ids (tabs dNew)) as Hin by (apply ids_insert_at_elem; by left).
    assert (tabItems dNew !! t = Some {| dialogID := dlg; handle := nullptr |}) as Hitem
      by apply lookup_insert_eq.
    unfold mbind, M_bind. rewrite (createTabDialog_visible dNew t _ Hin Hitem).
    unfold emit, modify, dNew; simpl.
    repeat split.
    + by apply insert_at_lookup.
    + by apply find_tab_insert_at.
    + by apply delete_insert_at.
    + by rewrite insert_insert_eq.
    + by rewrite <- !app_assoc.
Qed.

(** X6.  [addTabAt] with an id the dialog does not know and a position
    [pos] of [tabs] returns; the new tab sits at index [pos], which is the
    index sent to the tabs control with [TCM_INSERTITEM] and the index
    [findTab] finds it at; the other tabs keep their order and the hidden
    tabs are untouched.  The item holds the dialog resource; with lazy
    initialisation nothing else is called and the handle is null, without it
    the dialog is created first and the handle is what [CreateDialogParam]
    returned. *)
Theorem addTabAt_fresh (d : Dialog) (t dlg : Z) (text : string) (pos : nat)
    (lazyInitialization : bool) :
  t ∉ ids (tabs d) ++ ids (hiddenTabs d) →
  (pos ≤ length (tabs d))%nat →
  let r := addTabAt t dlg text pos lazyInitialization d in
  let h := if lazyInitialization then nullptr else default nullptr (head (handles d)) in
  r.2 = Returned tt ∧
  tabs r.1 !! pos = Some {| tab := t |} ∧
  find_tab t (tabs r.1) = pos ∧
  delete pos (tabs r.1) = tabs d ∧
  hiddenTabs r.1 = hiddenTabs d ∧
  tabItems r.1 = <[t := {| dialogID := dlg; handle := h |}]> (tabItems d) ∧
  events r.1 = events d ++
    (if lazyInitialization then []
     else [CreateDialogParam dlg t; SetWindowPos h; onTabDialogCreated t]) ++
    [SendDlgItemMessage TCM_INSERTITEM (Z.of_nat pos) (Some text)].
Proof. apply addTabAt_fresh_state. Qed.

Lemma addTabAt_fresh_witness :
  tabs (addTabAt 9%Z 109%Z "About" 1 false sample).1 !! 1%nat = Some {| tab := 9%Z |}.
Proof.
  apply (addTabAt_fresh sample 9%Z 109%Z "About" 1 false).
  - apply (bool_decide_unpack _). vm_compute. exact I.
  - vm_compute. lia.
Defined.



(** *** Showing a tab *)

Lemma quiet_ret {A} (a : A) : quiet (mret a).
Proof. intros d. exists a, d. split; [done|]. split; [apply grows_refl | done]. Qed.

Lemma quiet_bind {A B} (m : M A) (f : A → M B) :
  quiet m → (∀ a, quiet (f a)) → quiet (m ≫= f).
Proof.
  intros Hm Hf d. destruct (Hm d) as (a & d1 & Hm1 & Hg1 & Hc1).
  destruct (Hf a d1) as (b & d2 & Hf1 & Hg2 & Hc2).
  exists b, d2. unfold mbind, M_bind. rewrite Hm1.
  split; [done|]. split; [by eapply grows_trans | congruence].
Qed.

Lemma quiet_gets {A} (f : Dialog → A) : quiet (gets f).
Proof. intros d. exists (f d), d. split; [done|]. split; [apply grows_refl | done]. Qed.

Lemma quiet_emit e : quiet (emit e).
Proof. intros d. eexists tt, _. split; [done|]. by repeat split. Qed.

Lemma quiet_set_handles hs : quiet (modify (set_handles hs)).
Proof. intros d. eexists tt, _. split; [done|]. by repeat split. Qed.

Lemma quiet_insert_item t x :
  quiet (modify (fun d => set_tabItems (<[t := x]> (tabItems d)) d)).
Proof.
  intros d. eexists tt, _. split; [done|]. repeat split. intros t'. apply is_Some_insert.
Qed.

Lemma quiet_tabItems_at t : quiet (tabItems_at t).
Proof.
  intros d. unfold tabItems_at. destruct (tabItems d !! t) as [item|].
  - exists item, d. split; [done|]. split; [apply grows_refl | done].
  - eexists _, _. split; [done|]. repeat split. intros t'. apply is_Some_insert.
Qed.

Ltac quiet_step :=
  repeat first
    [ apply quiet_ret | apply quiet_gets | apply quiet_emit | apply quiet_set_handles
    | apply quiet_insert_item | apply quiet_tabItems_at
    | apply quiet_bind; [|intros ?]
    | case_decide | case_match ].

Lemma quiet_createTabDialog t : quiet (createTabDialog t).
Proof. unfold createTabDialog, findTab, createDialogParam. quiet_step. Qed.

Lemma showTab_no_change (hpp : Header) (d : Dialog) (t : Z) :
  currentTab d = t → showTab hpp t d = (d, Returned tt).
Proof.
  intros Hcur. unfold showTab, mbind, M_bind, gets; simpl.
  case_decide as Hne; [congruence | reflexivity].
Qed.

Lemma showTab_result (hpp : Header) (d : Dialog) (t : Z) :
  quietHeader hpp →
  ∃ d', showTab hpp t d = (d', Returned tt) ∧ grows d d' ∧ currentTab d' = t.
Proof.
  intros (Hcreated & Hvisible & Hindex).
  destruct (decide (currentTab d = t)) as [Heq|Hne].
  { exists d. split; [by apply showTab_no_change|]. split; [apply grows_refl | done]. }
  unfold showTab. unfold mbind at 1, M_bind at 1, gets at 1. cbv beta iota.
  rewrite decide_True by done.
  assert (quiet (if decide (0 ≤ currentTab d)%Z
                 then setTabVisibility hpp (currentTab d) false else mret tt)) as Hq1.
  { case_decide; [apply Hvisible | apply quiet_ret]. }
  destruct (Hq1 d) as ([] & d1 & Hr1 & Hg1 & _).
  unfold mbind at 1, M_bind at 1. rewrite Hr1.
  unfold mbind at 1, M_bind at 1, modify at 1. cbv beta iota.
  match goal with
  | |- ∃ d', ?rest (set_currentTab t d1) = _ ∧ _ => assert (quiet rest) as Hq2
  end.
  { pose proof quiet_createTabDialog. quiet_step; auto. }
  destruct (Hq2 (set_currentTab t d1)) as ([] & d2 & -> & Hg2 & Hc2).
  exists d2. split; [done|]. split; [|by rewrite Hc2].
  eapply grows_trans; [exact Hg1|]. eapply grows_trans; [|exact Hg2]. by repeat split.
Qed.

Lemma header_quiet : quietHeader header.
Proof. repeat split; intros; unfold header; simpl; quiet_step. Defined.

(** X8.  With helpers that return, leave the tabs and the items in place
    and do not touch [currentTab], [showTab(t)] returns and leaves [t] the
    current tab, also when no tab has this id: the id is assigned without
    any check.  The visible and the hidden tabs are as before and no item is
    lost.  A second [showTab(t)] right after changes nothing, whatever the
    helpers do. *)
Theorem showTab_makes_current (hpp : Header) (d : Dialog) (t : Z) :
  quietHeader hpp →
  let d' := (showTab hpp t d).1 in
  (showTab hpp t d).2 = Returned tt ∧
  currentTab d' = t ∧
  tabs d' = tabs d ∧
  hiddenTabs d' = hiddenTabs d ∧
  dom (tabItems d) ⊆ dom (tabItems d') ∧
  ∀ hpp', showTab hpp' t d' = (d', Returned tt).
Proof.
  intros Hq. destruct (showTab_result hpp d t Hq) as (d' & Hr & (Ht & Hh & Hi) & Hc).
  rewrite Hr. cbn [fst snd].
  repeat split; try done.
  - intros t' Ht'. apply elem_of_dom. apply Hi. by apply elem_of_dom.
  - intros hpp'. by apply showTab_no_change.
Qed.

Lemma showTab_makes_current_witness : currentTab (showTab header 9%Z sample).1 = 9%Z.
Proof. apply (showTab_makes_current header sample 9%Z). exact header_quiet. Defined.

Lemma gentle_ret {A} (a : A) : gentle (mret a).
Proof. intros d. apply grows_refl. Qed.

Lemma gentle_bind {A B} (m : M A) (f : A → M B) :
  gentle m → (∀ a, gentle (f a)) → gentle (m ≫= f).
Proof.
  intros Hm Hf d. unfold mbind, M_bind. specialize (Hm d).
  destruct (m d) as [d1 [a|e|]]; cbn [fst] in *; [|done..].
  eapply grows_trans; [exact Hm | apply Hf].
Qed.

Lemma gentle_steady {A} (m : M A) : steady m → gentle m.
Proof. intros Hm d. by destruct (Hm d) as (a & d' & -> & Hg). Qed.

Lemma gentle_showTab (hpp : Header) (t : Z) : gentleHeader hpp → gentle (showTab hpp t).
Proof.
  intros (Hcreated & Hvisible & Hindex). unfold showTab.
  repeat lazymatch goal with
  | |- gentle (mret _) => apply gentle_ret
  | |- gentle (gets _) => apply gentle_steady, steady_gets
  | |- gentle (emit _) => apply gentle_steady, steady_emit
  | |- gentle (modify (set_currentTab _)) => apply gentle_steady, steady_set_currentTab
  | |- gentle (createTabDialog _) => apply gentle_steady, steady_createTabDialog
  | |- gentle (isTabDialogCreated _ _) => apply Hcreated
  | |- gentle (setTabVisibility _ _ _) => apply Hvisible
  | |- gentle (getTabIndexOf _ _) => apply Hindex
  | |- gentle (_ ≫= _) => apply gentle_bind; [|intros ?]
  | |- gentle (if negb ?b then _ else _) => destruct b; cbn [negb]
  | |- gentle (if decide _ then _ else _) => case_decide
  end.
Qed.

Lemma header_gentle : gentleHeader header.
Proof.
  destruct header_quiet as (H1 & H2 & H3).
  split; [|split].
  - intros t d. by destruct (H1 t d) as (a & d' & -> & Hg & _).
  - intros t show d. by destruct (H2 t show d) as (a & d' & -> & Hg & _).
  - intros t d. by destruct (H3 t d) as (a & d' & -> & Hg & _).
Defined.

(** X9.  [showTab] keeps a consistent dialog consistent, with any helpers
    that leave the tabs in place and drop no item, whether they return,
    throw or are undefined: the code of [showTab] itself only assigns
    [currentTab] and has [createTabDialog] store a handle. *)
Theorem showTab_keeps_consistent (hpp : Header) (d : Dialog) (t : Z) :
  gentleHeader hpp → consistent d → consistent (showTab hpp t d).1.
Proof.
  intros Hg Hc. eapply grows_consistent; [|exact Hc]. by apply gentle_showTab.
Qed.

Lemma showTab_keeps_consistent_witness : consistent (showTab header 2%Z sample).1.
Proof.
  apply (showTab_keeps_consistent header sample 2%Z);
    [exact header_gentle | exact sample_consistent].
Defined.

(** *** Creating the dialog of a tab *)

Lemma createTabDialog_visible_default (d : Dialog) (t : Z) :
  t ∈ ids (tabs d) →
  let item := default defaultTabItem (tabItems d !! t) in
  let h := default nullptr (head (handles d)) in
  createTabDialog t d =
    (set_events (events d ++ [CreateDialogParam (dialogID item) t; SetWindowPos h;
                              onTabDialogCreated t])
       (set_tabItems (<[t := {| dialogID := dialogID item; handle := h |}]> (tabItems d))
          (set_handles (tail (handles d)) d)),
     Returned tt).
Proof.
  intros Hin item h. subst item h.
  destruct (tabItems d !! t) as [item|] eqn:Hitem.
  - by apply createTabDialog_visible.
  - apply find_tab_lt in Hin.
    unfold createTabDialog, createDialogParam, tabItems_at, mbind, M_bind, findTab, gets, emit,
      modify, mret, M_ret; simpl.
    rewrite decide_True by lia. rewrite Hitem. simpl.
    destruct d as [ts hs its cur hdl evs]; simpl in *.
    destruct hdl as [|h0 hdl]; simpl; unfold set_events, set_tabItems, set_handles; simpl;
      rewrite <- !app_assoc, insert_insert_eq; reflexivity.
Qed.

(** X11.  [createTabDialog(t)] does nothing unless [t] is a visible tab: an
    unknown id and a hidden tab leave the dialog as it is.  For a visible
    tab it asks for a dialog of the resource of the item, stores the handle
    that comes back in the item, positions the window and calls the hook
    [onTabDialogCreated]; it does so too when the handle that comes back is
    null, the creation having failed, for the result is not checked. *)
Theorem createTabDialog_spec (d : Dialog) (t : Z) :
  createTabDialog t d =
    if decide (t ∈ ids (tabs d)) then
      let item := default defaultTabItem (tabItems d !! t) in
      let h := default nullptr (head (handles d)) in
      (set_events (events d ++ [CreateDialogParam (dialogID item) t; SetWindowPos h;
                                onTabDialogCreated t])
         (set_tabItems (<[t := {| dialogID := dialogID item; handle := h |}]> (tabItems d))
            (set_handles (tail (handles d)) d)),
       Returned tt)
    else (d, Returned tt).
Proof.
  case_decide as Hin.
  - by apply createTabDialog_visible_default.
  - by apply createTabDialog_absent.
Qed.

(** *** The destructor *)

Lemma set_events_same (d : Dialog) : set_events (events d) d = d.
Proof. by destruct d. Qed.

Lemma destroy_items (items : list (Z * TabItem)) (d : Dialog) :
  foldr (fun tabItem rest => destroyItem tabItem;; rest) (mret tt) items d =
    (set_events (events d ++
       (DestroyWindow <$> filter (fun h => h ≠ nullptr) ((fun p => handle p.2) <$> items))) d,
     Returned tt).
Proof.
  revert d. induction items as [|p items IH]; intros d; simpl.
  - by rewrite app_nil_r, set_events_same.
  - unfold mbind, M_bind, destroyItem. rewrite filter_cons.
    destruct (decide (handle p.2 ≠ nullptr)) as [Hh|Hh]; simpl.
    + unfold emit, modify. rewrite IH. simpl. unfold set_events; simpl.
      by rewrite <- app_assoc.
    + unfold mret, M_ret. by rewrite IH.
Qed.

Lemma destructor_eq (d : Dialog) :
  destructor d = (set_events (events d ++ (DestroyWindow <$> liveHandles d)) d, Returned tt).
Proof. unfold destructor, mbind, M_bind, gets. apply destroy_items. Qed.

Lemma liveHandles_Permutation (d : Dialog) :
  liveHandles d ≡ₚ
    filter (fun h => h ≠ nullptr) ((fun p => handle p.2) <$> map_to_list (tabItems d)).
Proof. unfold liveHandles, inOrder. by rewrite merge_sort_Permutation. Qed.

Lemma elem_of_liveHandles (d : Dialog) (h : Z) :
  h ∈ liveHandles d ↔
  h ≠ nullptr ∧ ∃ t item, tabItems d !! t = Some item ∧ handle item = h.
Proof.
  rewrite liveHandles_Permutation, list_elem_of_filter, list_elem_of_fmap.
  split.
  - intros [Hn ([t item] & -> & Hin)]. split; [done|]. exists t, item.
    split; [by apply elem_of_map_to_list | done].
  - intros [Hn (t & item & Hl & <-)]. split; [done|]. exists (t, item).
    split; [done | by apply elem_of_map_to_list].
Qed.

(** X13.  The destructor calls [DestroyWindow] for the items whose handle is
    not null, once for each item and in the order of the tab ids, and does
    nothing else: the tabs, the items and the current tab are as before.  So
    each dialog that was created and not yet destroyed is destroyed, that of
    a hidden tab as well, and a tab whose dialog was never created causes no
    call. *)
Theorem destructor_spec (d : Dialog) :
  destructor d = (set_events (events d ++ (DestroyWindow <$> liveHandles d)) d, Returned tt) ∧
  liveHandles d ≡ₚ
    filter (fun h => h ≠ nullptr) ((fun p => handle p.2) <$> map_to_list (tabItems d)) ∧
  liveHandles d =
    filter (fun h => h ≠ nullptr) ((fun p => handle p.2) <$> inOrder (tabItems d)) ∧
  Sorted Z.le ((inOrder (tabItems d)).*1) ∧
  ∀ h, h ∈ liveHandles d ↔
       h ≠ nullptr ∧ ∃ t item, tabItems d !! t = Some item ∧ handle item = h.
Proof.
  split; [apply destructor_eq|]. split; [apply liveHandles_Permutation|].
  split; [reflexivity|]. split; [|apply elem_of_liveHandles].
  unfold inOrder.
  assert (Total key_le) as Htot by (intros p q; unfold key_le; lia).
  pose proof (Sorted_merge_sort key_le (map_to_list (tabItems d))) as Hs.
  induction Hs as [|p l Hs IH Hhd]; simpl; constructor; [done|].
  destruct Hhd; simpl; constructor. done.
Qed.

(** X14.  The destructor and [removeTab].  A tab hidden with
    [removeTab(t, false)] keeps its item, so the destructor destroys its
    dialog, if it has one.  A tab removed with [removeTab(t, true)] has lost
    its item with its dialog, so the destructor does not destroy that dialog
    a second time (no other item holding the same handle). *)
Theorem destructor_after_removeTab (d : Dialog) (t : Z) (item : TabItem) :
  consistent d → t ∈ ids (tabs d) → tabItems d !! t = Some item → handle item ≠ nullptr →
  (∀ t' item', tabItems d !! t' = Some item' → handle item' = handle item → t' = t) →
  let hidden := (removeTab t false d).1 in
  let gone := (removeTab t true d).1 in
  DestroyWindow (handle item) ∈ since (events hidden) (events (destructor hidden).1) ∧
  DestroyWindow (handle item) ∉ since (events gone) (events (destructor gone).1).
Proof.
  intros Hc Hin Hitem Hnull Honly hidden gone. subst hidden gone.
  rewrite !destructor_eq. cbn [fst]. unfold since. simpl.
  rewrite !drop_app_length. split.
  - apply (list_elem_of_fmap_2 DestroyWindow). apply elem_of_liveHandles.
    split; [done|]. exists t, item. split; [|done].
    by rewrite (removeTab_hide _ _ Hin).
  - intros (h & Heq & Hh)%list_elem_of_fmap. injection Heq as <-.
    apply elem_of_liveHandles in Hh as (_ & t' & item' & Hl & Hsame).
    rewrite (removeTab_destroy _ _ _ Hin Hitem) in Hl. simpl in Hl.
    apply lookup_delete_Some in Hl as [Hne Hl]. apply Hne. symmetry. by eapply Honly.
Qed.

Lemma destructor_after_removeTab_witness :
  DestroyWindow 7001%Z ∈
    since (events (removeTab 1%Z false sample).1)
          (events (destructor (removeTab 1%Z false sample).1).1).
Proof.
  apply (destructor_after_removeTab sample 1%Z {| dialogID := 101; handle := 7001 |}%Z).
  - exact sample_consistent.
  - apply (bool_decide_unpack _). vm_compute. exact I.
  - vm_compute. reflexivity.
  - vm_compute. discriminate.
  - intros t' item' Hl Hh.
    destruct (decide (t' = 1%Z)) as [->|H1]; [done|].
    destruct (decide (t' = 2%Z)) as [->|H2]; [vm_compute in Hl; by simplify_eq|].
    destruct (decide (t' = 3%Z)) as [->|H3]; [vm_compute in Hl; by simplify_eq|].
    unfold sample in Hl; simpl in Hl.
    rewrite !lookup_insert_ne in Hl by done.
    rewrite lookup_singleton_ne in Hl by done. discriminate.
Defined.

(** *** Notifications of the tabs control *)

(** X15.  A selection change of the tabs control shows the tab that sits
    at the reported index: [handleNotifyMessage] does what [showTab] of that
    tab does and then returns [TRUE]; the base class is not called.  No id
    being twice among the tabs, that tab is the one whose index [findTab]
    gives back as the reported one.  When the tab is the current one
    already, nothing happens at all and [TRUE] is returned; with helpers
    that return and leave [currentTab] alone the tab is current
    afterwards. *)
Theorem handleNotifyMessage_select (hpp : Header) (bits tabsControlID : Z)
    (base : Z → NMHDR → M Z) (wParam : Z) (nmhdr : NMHDR) (curSel : Z) (d : Dialog)
    (x : Tab) :
  idFrom nmhdr = toUINT_PTR bits tabsControlID →
  code nmhdr = TCN_SELCHANGE →
  (0 ≤ toInt curSel)%Z →
  tabs d !! Z.to_nat (toInt curSel) = Some x →
  let r := handleNotifyMessage hpp bits tabsControlID base wParam nmhdr curSel d in
  r = (showTab hpp (tab x) ≫= λ _, mret TRUE) d ∧
  (NoDup (ids (tabs d)) → find_tab (tab x) (tabs d) = Z.to_nat (toInt curSel)) ∧
  (currentTab d = tab x → r = (d, Returned TRUE)) ∧
  (quietHeader hpp → r.2 = Returned TRUE ∧ currentTab r.1 = tab x).
Proof.
  intros Hid Hcode Hpos Hx r.
  assert (r = (showTab hpp (tab x) ≫= λ _, mret TRUE) d) as Hr.
  { subst r. unfold handleNotifyMessage.
    rewrite decide_True by done. rewrite decide_True by done.
    unfold mbind at 1, M_bind at 1. unfold mbind at 1, M_bind at 1, gets at 1.
    cbv beta iota. rewrite decide_True by done. rewrite Hx.
    unfold mbind, M_bind. by destruct (showTab hpp (tab x) d) as [d' [[]|e|]]. }
  split; [exact Hr|]. split; [intros Hnd; by apply find_tab_index|]. split.
  - intros Hcur. rewrite Hr. unfold mbind, M_bind.
    by rewrite (showTab_no_change hpp d (tab x) Hcur).
  - intros Hq. rewrite Hr. unfold mbind, M_bind.
    by destruct (showTab_result hpp d (tab x) Hq) as (d' & -> & _ & Hc).
Qed.

Lemma handleNotifyMessage_select_witness :
  currentTab (handleNotifyMessage header 64 1001 (fun _ _ => mret FALSE) 0
                {| idFrom := 1001; code := TCN_SELCHANGE |} 1 sample).1 = 2%Z.
Proof.
  apply (handleNotifyMessage_select header 64 1001 (fun _ _ => mret FALSE) 0
           {| idFrom := 1001; code := TCN_SELCHANGE |} 1 sample {| tab := 2 |}).
  - reflexivity.
  - reflexivity.
  - vm_compute. discriminate.
  - reflexivity.
  - exact header_quiet.
Defined.

(** X16.  The index the tabs control reports is not checked.  When it
    answers [TCM_GETCURSEL] with -1 (no tab selected) or with an index from
    the number of tabs on, [std::next(tabs.begin(), tabIndex)] designates no
    tab and the dereference is undefined; the dialog has not been changed by
    then. *)
Theorem handleNotifyMessage_no_tab (hpp : Header) (bits tabsControlID : Z)
    (base : Z → NMHDR → M Z) (wParam : Z) (nmhdr : NMHDR) (curSel : Z) (d : Dialog) :
  idFrom nmhdr = toUINT_PTR bits tabsControlID →
  code nmhdr = TCN_SELCHANGE →
  (toInt curSel < 0 ∨ Z.of_nat (length (tabs d)) ≤ toInt curSel)%Z →
  handleNotifyMessage hpp bits tabsControlID base wParam nmhdr curSel d = (d, Undefined).
Proof.
  intros Hid Hcode Hout.
  unfold handleNotifyMessage. rewrite decide_True by done. rewrite decide_True by done.
  unfold mbind at 1, M_bind at 1. unfold mbind at 1, M_bind at 1, gets at 1.
  cbv beta iota.
  case_decide as Hpos; [|reflexivity].
  rewrite lookup_ge_None_2 by lia. reflexivity.
Qed.

Lemma handleNotifyMessage_no_tab_witness :
  handleNotifyMessage header 64 1001 (fun _ _ => mret FALSE) 0
    {| idFrom := 1001; code := TCN_SELCHANGE |} (-1) sample = (sample, Undefined).
Proof.
  apply (handleNotifyMessage_no_tab header 64 1001 (fun _ _ => mret FALSE) 0
           {| idFrom := 1001; code := TCN_SELCHANGE |} (-1) sample).
  - reflexivity.
  - reflexivity.
  - left. vm_compute. reflexivity.
Defined.

(** *** The procedure of the tab dialogs *)

(** X17.  [tabDialogProc] finds its tab through the user data of the
    window.  [WM_INITDIALOG] stores the address it is given for the window
    and returns [TRUE]; from then on each [WM_COMMAND] of that window goes
    to [handleTabCommandMessage] with the id of the tab at that address and
    the two parameters as they came, and its answer is returned.  A
    [WM_COMMAND] of a window that was never initialised returns [FALSE]
    without calling the handler, and no message but [WM_INITDIALOG] changes
    the user data. *)
Theorem tabDialogProc_dispatch (tabAt : Z → option Tab)
    (handleTabCommandMessage : Z → Z → Z → M Z) (hwnd address : Z) (x : Tab)
    (userData : gmap Z Z) (d : Dialog) (wParam0 : Z) :
  address ≠ nullptr → tabAt address = Some x →
  let proc := tabDialogProc tabAt handleTabCommandMessage in
  let userData' := (proc hwnd WM_INITDIALOG wParam0 address userData d).1 in
  proc hwnd WM_INITDIALOG wParam0 address userData d = (userData', (d, Returned TRUE)) ∧
  (∀ wParam lParam d',
     proc hwnd WM_COMMAND wParam lParam userData' d'
     = (userData', handleTabCommandMessage (tab x) wParam lParam d')) ∧
  (∀ other wParam lParam d',
     other ≠ hwnd → userData !! other = None →
     proc other WM_COMMAND wParam lParam userData' d' = (userData', (d', Returned FALSE))) ∧
  (∀ other message wParam lParam d',
     message ≠ WM_INITDIALOG →
     (proc other message wParam lParam userData' d').1 = userData').
Proof.
  intros Hnull Hx proc userData'.
  assert (proc hwnd WM_INITDIALOG wParam0 address userData d
          = (<[hwnd := address]> userData, (d, Returned TRUE))) as Hinit
    by (unfold proc, tabDialogProc; by rewrite decide_True by done).
  subst userData'. rewrite Hinit. cbn [fst]. subst proc.
  split; [done|]. split; [|split].
  - intros wParam lParam d'. unfold tabDialogProc, getUserData.
    rewrite decide_False by done. rewrite decide_True by done.
    rewrite lookup_insert_eq. cbn [default from_option id]. rewrite decide_False by done.
    by rewrite Hx.
  - intros other wParam lParam d' Hother Hnone. unfold tabDialogProc, getUserData.
    rewrite decide_False by done. rewrite decide_True by done.
    rewrite lookup_insert_ne by done. rewrite Hnone. cbn [default from_option id].
    by rewrite decide_True by done.
  - intros other message wParam lParam d' Hmsg. unfold tabDialogProc.
    rewrite decide_False by done.
    case_decide; [|done]. case_decide; [done|]. by case_match.
Qed.

Lemma tabDialogProc_dispatch_witness :
  tabDialogProc (fun a => if decide (a = 4096%Z) then Some {| tab := 2%Z |} else None)
    (fun t _ _ => mret t) 7002%Z WM_INITDIALOG 0%Z 4096%Z ∅ sample
  = ({[ 7002%Z := 4096%Z ]}, (sample, Returned TRUE)).
Proof.
  apply (tabDialogProc_dispatch
           (fun a => if decide (a = 4096%Z) then Some {| tab := 2%Z |} else None)
           (fun t _ _ => mret t) 7002%Z 4096%Z {| tab := 2%Z |} ∅ sample 0%Z).
  - vm_compute. discriminate.
  - reflexivity.
Defined.

(** *** The current tab across removals *)

Lemma removeTab_currentTab (d : Dialog) (t : Z) (destroy : bool) :
  currentTab (removeTab t destroy d).1 = currentTab d.
Proof.
  destruct (decide (t ∈ ids (tabs d))) as [Hin|Hno];
    [|by rewrite removeTab_absent].
  destruct destroy; [|by rewrite removeTab_hide].
  destruct (tabItems d !! t) as [item|] eqn:Hitem;
    [by rewrite (removeTab_destroy _ _ item)|].
  apply find_tab_lt in Hin.
  unfold removeTab, mbind, M_bind, findTab, gets, emit, modify, undefined; simpl.
  case_decide; [|lia]. simpl. by rewrite Hitem.
Qed.

(** X18.  [removeTab] never touches [currentTab], so removing the current
    tab leaves [currentTab] at an id that is a tab no more.  When the tab
    was destroyed and its id is added again (with lazy initialisation),
    [currentTab] still equals the id and [showTab] of it does nothing: the
    dialog of the new tab is not created and the tabs control is not told
    to select it. *)
Theorem removeTab_current_stale (d : Dialog) (t : Z) (item : TabItem) (dlg : Z)
    (text : string) (pos : nat) :
  consistent d → t ∈ ids (tabs d) → tabItems d !! t = Some item → currentTab d = t →
  let d1 := (removeTab t true d).1 in
  let d2 := (addTabAt t dlg text pos true d1).1 in
  (∀ t' destroy, currentTab (removeTab t' destroy d).1 = currentTab d) ∧
  (t ∉ ids (tabs d1)) ∧ currentTab d1 = t ∧
  t ∈ ids (tabs d2) ∧ currentTab d2 = t ∧
  (∀ hpp, showTab hpp t d2 = (d2, Returned tt)) ∧
  tabItems d2 !! t = Some {| dialogID := dlg; handle := nullptr |}.
Proof.
  intros Hc Hin Hitem Hcur d1 d2.
  split; [intros; apply removeTab_currentTab|].
  assert (t ∉ ids (tabs d1) ++ ids (hiddenTabs d1)) as Hfresh.
  { pose proof Hc as [Hnd Hit]. subst d1.
    rewrite (removeTab_destroy _ _ _ Hin Hitem). cbn [fst snd]. simpl.
    pose proof (ids_delete _ _ _ (find_tab_lookup _ _ Hin)) as Hperm. simpl in Hperm.
    rewrite Hperm in Hnd. simpl in Hnd. by apply NoDup_cons in Hnd as [? _]. }
  assert (currentTab d1 = t) as Hcur1 by (subst d1; by rewrite removeTab_currentTab).
  assert (d2 = set_events (events d1 ++ [SendDlgItemMessage TCM_INSERTITEM (getTabIndex pos)
                                           (Some text)])
                 (set_tabItems (<[t := {| dialogID := dlg; handle := nullptr |}]> (tabItems d1))
                    (set_tabs (insert_at pos {| tab := t |} (tabs d1)) d1))) as Hd2.
  { subst d2. by rewrite (addTabAt_fresh_pre d1 t dlg text pos true Hfresh). }
  assert (currentTab d2 = t) as Hcur2 by (by rewrite Hd2).
  split; [intros ?; apply Hfresh, elem_of_app; by left|].
  split; [done|]. split.
  { rewrite Hd2. simpl. apply ids_insert_at_elem. by left. }
  split; [done|]. split; [intros hpp; by apply showTab_no_change|].
  rewrite Hd2. simpl. apply lookup_insert_eq.
Qed.

Lemma removeTab_current_stale_witness :
  showTab header 1%Z (addTabAt 1%Z 101%Z "General" 0 true (removeTab 1%Z true sample).1).1
  = ((addTabAt 1%Z 101%Z "General" 0 true (removeTab 1%Z true sample).1).1, Returned tt).
Proof.
  apply (removeTab_current_stale sample 1%Z {| dialogID := 101; handle := 7001 |}%Z
           101%Z "General" 0).
  - exact sample_consistent.
  - apply (bool_decide_unpack _). vm_compute. exact I.
  - vm_compute. reflexivity.
  - reflexivity.
Defined.

End DialogExtras.
